(** * Powerball cleaner and SQLite loader: a shallow embedding

    The development follows [scripts/clean_powerball.py] (Ingestor and
    Transformer) and [scripts/load_to_sqlite.py] (Loader).

    Conventions.
    - A DataFrame is a list of column labels and a list of rows, each row
      a list of cells aligned with the labels.  Inside the Transformer,
      where every column is accessed by a fixed name, a row is a record.
    - A cell is what [pd.read_csv] leaves in the frame: an int64, a bool,
      a float64 (the missing value [np.nan] is the float NaN) or a str.
    - A raised Python exception is the [Raise] branch of [result].
    - Two library behaviours are parameters of the development: the
      number parser that [pd.to_numeric] applies to text, and the sort
      algorithm behind [DataFrame.sort_values] (only its contract is
      assumed: a permutation, ascending in the key). *)

From Stdlib Require Import ZArith Lia.
From Stdlib Require Import Floats.SpecFloat.
From stdpp Require Import base decidable option list numbers strings pretty.
From stdpp Require Import sorting gmap.

Local Open Scope Z_scope.

(** ** Exceptions and results *)

Inductive exn : Type :=
| ValueError (msg : string)
| TypeError (msg : string)
| KeyError (msg : string)
| SystemExit (msg : string)
| OperationalError (msg : string).

Inductive result (A : Type) : Type :=
| Ok (a : A)
| Raise (e : exn).
Arguments Ok {A} a.
Arguments Raise {A} e.

Definition bind {A B} (m : result A) (k : A → result B) : result B :=
  match m with
  | Ok a => k a
  | Raise e => Raise e
  end.

Notation "x <-! m ; k" := (bind m (fun x => k))
  (at level 20, m at level 100, k at level 200, only parsing).

Fixpoint traverse {A B} (f : A → result B) (l : list A) : result (list B) :=
  match l with
  | [] => Ok []
  | a :: l' => b <-! f a; bs <-! traverse f l'; Ok (b :: bs)
  end.

Definition is_ok {A} (m : result A) : bool :=
  match m with Ok _ => true | Raise _ => false end.

(** ** Cells and numbers *)

Inductive cell : Type :=
| CInt (z : Z)
| CBool (b : bool)
| CFloat (f : spec_float)
| CStr (s : string).

(** [np.nan] *)
Definition nan : cell := CFloat S754_nan.

(** What [pd.to_numeric] yields for one cell: an integer or a float64. *)
Inductive numeric : Type :=
| NInt (z : Z)
| NFloat (f : spec_float).

Global Instance spec_float_eq_dec : EqDecision spec_float.
Proof. solve_decision. Defined.
Global Instance cell_eq_dec : EqDecision cell.
Proof. solve_decision. Defined.
Global Instance numeric_eq_dec : EqDecision numeric.
Proof. solve_decision. Defined.

(** The integer a float64 is equal to, when there is one. *)
Definition float_to_Z (f : spec_float) : option Z :=
  match f with
  | S754_zero _ => Some 0
  | S754_infinity _ => None
  | S754_nan => None
  | S754_finite s m e =>
      let sign := if s then -1 else 1 in
      if 0 <=? e then Some (sign * (Z.pos m * 2 ^ e))
      else if Z.pos m mod 2 ^ (- e) =? 0
           then Some (sign * (Z.pos m / 2 ^ (- e)))
           else None
  end.

Definition int_of (n : numeric) : option Z :=
  match n with
  | NInt z => Some z
  | NFloat f => float_to_Z f
  end.

(** [pd.isna] on a numeric value. *)
Definition isna (n : numeric) : bool :=
  match n with
  | NFloat S754_nan => true
  | _ => false
  end.

Definition INT64_MIN : Z := - 2 ^ 63.
Definition INT64_MAX : Z := 2 ^ 63 - 1.

Definition cast_msg : string :=
  "cannot safely cast non-equivalent float64 to int64".

(** [.astype("Int64")] on one value of a numeric column: NaN becomes
    [<NA>], a float equal to an int64 becomes that integer, and any other
    float makes the cast of the whole column raise [TypeError]. *)
Definition astype_Int64 (n : numeric) : result (option Z) :=
  match n with
  | NInt z => Ok (Some z)
  | NFloat S754_nan => Ok None
  | NFloat f =>
      match float_to_Z f with
      | Some z =>
          if (INT64_MIN <=? z) && (z <=? INT64_MAX) then Ok (Some z)
          else Raise (TypeError cast_msg)
      | None => Raise (TypeError cast_msg)
      end
  end.

(** ** DataFrames *)

Record Frame (L C : Type) : Type := mkFrame {
  columns : list L;
  rows : list (list C)
}.
Arguments mkFrame {L C} columns rows.
Arguments columns {L C} _.
Arguments rows {L C} _.

(** Every row has one cell per column, and labels are unique (which
    [pd.read_csv] ensures). *)
Definition wf_frame {L C} (df : Frame L C) : Prop :=
  NoDup (columns df) ∧ Forall (λ r, length r = length (columns df)) (rows df).

(** [df.shape[1]] *)
Definition shape1 {L C} (df : Frame L C) : nat := length (columns df).

(** [len(df)] *)
Definition nrows {L C} (df : Frame L C) : nat := length (rows df).

(** Position of a label among the columns. *)
Fixpoint index_of `{EqDecision L} (c : L) (cols : list L) : option nat :=
  match cols with
  | [] => None
  | c' :: cols' => if decide (c = c') then Some 0%nat else S <$> index_of c cols'
  end.

(** [df.columns = names], applied only when the widths agree. *)
Definition set_columns {L L' C} (names : list L') (df : Frame L C) : Frame L' C :=
  mkFrame names (rows df).

(** [df[c] = v] for a scalar [v]: overwrite the column when the label
    exists, append a new last column otherwise. *)
Definition setitem_scalar `{EqDecision L} {C} (c : L) (v : C) (df : Frame L C)
  : Frame L C :=
  match index_of c (columns df) with
  | Some i => mkFrame (columns df) ((λ r, <[i:=v]> r) <$> rows df)
  | None => mkFrame (columns df ++ [c]) ((λ r, r ++ [v]) <$> rows df)
  end.

(** The labels of [cols] that [df] lacks, in the order of [cols]. *)
Definition missing_columns `{EqDecision L} {C} (cols : list L) (df : Frame L C)
  : list L :=
  filter (λ c, c ∉ columns df) cols.

(** One row of [df[cols]], given the position of each requested label. *)
Definition take_cells {C} (dflt : C) (idxs : list nat) (r : list C) : list C :=
  (λ i, default dflt (r !! i)) <$> idxs.

(** [df[cols]]: the listed columns in the listed order; [None] stands for
    the [KeyError] raised when a label is absent. *)
Definition getitem_columns `{EqDecision L} {C} (dflt : C) (cols : list L)
  (df : Frame L C) : option (Frame L C) :=
  idxs ← mapM (λ c, index_of c (columns df)) cols;
  Some (mkFrame cols (take_cells dflt idxs <$> rows df)).

(** ** Ingestor *)

Definition EXPECTED_WITH_POWERPLAY : list string :=
  ["Game"; "Month"; "Day"; "Year"; "Num1"; "Num2"; "Num3"; "Num4"; "Num5";
   "Powerball"; "PowerPlay"].
Definition EXPECTED_WITHOUT_POWERPLAY : list string :=
  ["Game"; "Month"; "Day"; "Year"; "Num1"; "Num2"; "Num3"; "Num4"; "Num5";
   "Powerball"].

Definition unexpected_columns_msg (n : nat) : string :=
  "Unexpected number of columns: " +:+ pretty n +:+ " (expected 10 or 11).".

(** [read_powerball_csv], from the frame that
    [pd.read_csv(path, header=None)] returns (labels [0 .. n-1]). *)
Definition read_powerball_csv (df : Frame nat cell) : result (Frame string cell) :=
  let selected (df' : Frame string cell) :=
    match getitem_columns nan EXPECTED_WITH_POWERPLAY df' with
    | Some out => Ok out
    | None => Raise (KeyError "not in index")
    end in
  if decide (shape1 df = 11%nat) then
    selected (set_columns EXPECTED_WITH_POWERPLAY df)
  else if decide (shape1 df = 10%nat) then
    selected (setitem_scalar "PowerPlay" nan
                (set_columns EXPECTED_WITHOUT_POWERPLAY df))
  else Raise (ValueError (unexpected_columns_msg (shape1 df))).

(** ** Calendar dates *)

Record date : Type := mkDate { year : Z; month : Z; day : Z }.

Global Instance date_eq_dec : EqDecision date.
Proof. solve_decision. Defined.

Definition is_leap (y : Z) : bool :=
  (y mod 4 =? 0) && (negb (y mod 100 =? 0) || (y mod 400 =? 0)).

Definition days_in_month (y m : Z) : Z :=
  match m with
  | 1 | 3 | 5 | 7 | 8 | 10 | 12 => 31
  | 4 | 6 | 9 | 11 => 30
  | 2 => if is_leap y then 29 else 28
  | _ => 0
  end.

(** A day that exists in the (proleptic Gregorian) calendar. *)
Definition valid_date (d : date) : bool :=
  (1 <=? month d) && (month d <=? 12) &&
  (1 <=? day d) && (day d <=? days_in_month (year d) (month d)).

Definition date_compare (a b : date) : comparison :=
  match year a ?= year b with
  | Eq => match month a ?= month b with
          | Eq => day a ?= day b
          | c => c
          end
  | c => c
  end.

Definition date_leb (a b : date) : bool :=
  match date_compare a b with Gt => false | _ => true end.

(** First and last whole days that a nanosecond [Timestamp] can hold. *)
Definition TIMESTAMP_MIN_DAY : date := mkDate 1677 9 22.
Definition TIMESTAMP_MAX_DAY : date := mkDate 2262 4 11.

Definition in_bounds (d : date) : bool :=
  date_leb TIMESTAMP_MIN_DAY d && date_leb d TIMESTAMP_MAX_DAY.

(** [pd.to_datetime(dict(year=..., month=..., day=...), errors="coerce")]
    on one row: [None] is [NaT]. *)
Definition to_datetime (y m d : numeric) : option date :=
  match int_of y, int_of m, int_of d with
  | Some y', Some m', Some d' =>
      let dt := mkDate y' m' d' in
      if valid_date dt && in_bounds dt then Some dt else None
  | _, _, _ => None
  end.

(** Decimal digits of a non-negative number, left-padded with zeros. *)
Fixpoint zfill (width : nat) (s : string) : string :=
  match width with
  | O => s
  | S w => if decide (String.length s < width)%nat then zfill w ("0" +:+ s) else s
  end.

(** [Series.dt.to_period("M").astype(str)] on one date: ["YYYY-MM"]. *)
Definition year_month (d : date) : string :=
  zfill 4 (pretty (year d)) +:+ "-" +:+ zfill 2 (pretty (month d)).

(** ** Rows of the three tables *)

Module Raw.
Record row : Type := mk {
  Game : cell; Month : cell; Day : cell; Year : cell;
  Num1 : cell; Num2 : cell; Num3 : cell; Num4 : cell; Num5 : cell;
  Powerball : cell; PowerPlay : cell
}.

(** The cell of row [r] under label [c]. *)
Definition at_label (cols : list string) (r : list cell) (c : string) : cell :=
  default nan (i ← index_of c cols; r !! i).

Definition of_cells (cols : list string) (r : list cell) : row :=
  let get := at_label cols r in
  mk (get "Game") (get "Month") (get "Day") (get "Year")
     (get "Num1") (get "Num2") (get "Num3") (get "Num4") (get "Num5")
     (get "Powerball") (get "PowerPlay").

Definition records (df : Frame string cell) : list row :=
  of_cells (columns df) <$> rows df.
End Raw.

Module Typed.
(** A row after [clean_types]: the number columns are [Int64]. *)
Record row : Type := mk {
  Date : date;
  Num1 : option Z; Num2 : option Z; Num3 : option Z; Num4 : option Z;
  Num5 : option Z; Powerball : option Z; PowerPlay : option Z
}.
End Typed.

Module Wide.
Record row : Type := mk {
  Date : date;
  Num1 : option Z; Num2 : option Z; Num3 : option Z; Num4 : option Z;
  Num5 : option Z; Powerball : option Z; PowerPlay : option Z;
  Year : Z; YearMonth : string
}.

Global Instance row_eq_dec : EqDecision row.
Proof. solve_decision. Defined.

Definition header : list string :=
  ["Date"; "Num1"; "Num2"; "Num3"; "Num4"; "Num5"; "Powerball"; "PowerPlay";
   "Year"; "YearMonth"].
End Wide.

(** The [Position] column of the long table holds ints and the text "PB". *)
Inductive position : Type :=
| PosInt (n : Z)
| PosStr (s : string).

Global Instance position_eq_dec : EqDecision position.
Proof. solve_decision. Defined.

Module Long.
Record row : Type := mk {
  Date : date; BallType : string; BallNumber : option Z;
  Position : position; PowerPlay : option Z; Year : Z; YearMonth : string
}.

Global Instance row_eq_dec : EqDecision row.
Proof. solve_decision. Defined.

Definition header : list string :=
  ["Date"; "BallType"; "BallNumber"; "Position"; "PowerPlay"; "Year";
   "YearMonth"].
End Long.

(** ** Generic table operations *)

(** [drop_duplicates(subset=keys, keep="first")]: a row is dropped when
    the key of an earlier row equals its own; missing values compare
    equal to each other. *)
Fixpoint drop_duplicates_from {A K} `{EqDecision K} (key : A → K)
  (seen : list K) (l : list A) : list A :=
  match l with
  | [] => []
  | x :: l' =>
      if decide (key x ∈ seen) then drop_duplicates_from key seen l'
      else x :: drop_duplicates_from key (key x :: seen) l'
  end.

Definition drop_duplicates {A K} `{EqDecision K} (key : A → K) (l : list A)
  : list A :=
  drop_duplicates_from key [] l.

(** [pd.notna] on a nullable column. *)
Definition notna {A} (v : option A) : bool :=
  match v with Some _ => true | None => false end.

(** ** Text helpers of the long reshape *)

Definition is_digit (a : Ascii.ascii) : bool :=
  let n := Ascii.nat_of_ascii a in (48 <=? n)%nat && (n <=? 57)%nat.

Fixpoint take_digits (s : string) : string :=
  match s with
  | EmptyString => EmptyString
  | String a s' => if is_digit a then String a (take_digits s') else EmptyString
  end.

(** [str.extract(r"(\d+)")]: the first maximal run of digits. *)
Fixpoint extract_digits (s : string) : option string :=
  match s with
  | EmptyString => None
  | String a s' => if is_digit a then Some (take_digits s) else extract_digits s'
  end.

Fixpoint int_of_digits (acc : Z) (s : string) : Z :=
  match s with
  | EmptyString => acc
  | String a s' =>
      int_of_digits (10 * acc + (Z.of_nat (Ascii.nat_of_ascii a) - 48)) s'
  end.

(** [.astype(int)] on the extracted text; no match is NaN, which cannot
    be cast. *)
Definition position_of (var : string) : result Z :=
  match extract_digits var with
  | Some ds => Ok (int_of_digits 0 ds)
  | None => Raise (ValueError "cannot convert float NaN to integer")
  end.

(** A number parser for plain runs of decimal digits, used to run the
    pipeline on examples. *)
Definition parse_decimal (s : string) : option numeric :=
  if decide (s ≠ EmptyString ∧ take_digits s = s)
  then Some (NInt (int_of_digits 0 s)) else None.

(** ** Transformer *)

Definition draw_key : Type :=
  date * option Z * option Z * option Z * option Z * option Z * option Z
  * option Z.

Section Transformer.
(** How [pd.to_numeric] reads a text cell; [None]: not a number. *)
Variable parse_number : string → option numeric.
(** [sort_values("Date")] on the wide rows. *)
Variable sort_values : list Wide.row → list Wide.row.

(** [pd.to_numeric(_, errors="coerce")] on one cell. *)
Definition to_numeric (c : cell) : numeric :=
  match c with
  | CInt z => NInt z
  | CBool b => NInt (if b then 1 else 0)
  | CFloat f => NFloat f
  | CStr s => default (NFloat S754_nan) (parse_number s)
  end.

Definition to_date (r : Raw.row) : option date :=
  let month := to_numeric (Raw.Month r) in
  let day := to_numeric (Raw.Day r) in
  let year := to_numeric (Raw.Year r) in
  to_datetime year month day.

(** [pd.to_numeric(df[c], errors="coerce").astype("Int64")] on one cell. *)
Definition to_Int64 (c : cell) : result (option Z) :=
  astype_Int64 (to_numeric c).

(** [clean_types] on one row that kept its [Date].  The assignment to
    [Game] touches a column that [build_wide] does not select. *)
Definition clean_row (p : Raw.row * date) : result Typed.row :=
  let '(r, d) := p in
  n1 <-! to_Int64 (Raw.Num1 r);
  n2 <-! to_Int64 (Raw.Num2 r);
  n3 <-! to_Int64 (Raw.Num3 r);
  n4 <-! to_Int64 (Raw.Num4 r);
  n5 <-! to_Int64 (Raw.Num5 r);
  pb <-! to_Int64 (Raw.Powerball r);
  pp <-! to_Int64 (Raw.PowerPlay r);
  Ok (Typed.mk d n1 n2 n3 n4 n5 pb pp).

(** [clean_types]: one cast per column in the source; a cast raises as
    soon as one cell of its column has no integer value, so the frame
    is produced exactly when every row converts. *)
Definition clean_types (out : list (Raw.row * date)) : result (list Typed.row) :=
  traverse clean_row out.

(** [out = out[pd.notna(out["Date"])]] *)
Definition notna_Date (out : list (Raw.row * option date))
  : list (Raw.row * date) :=
  omap (λ p, (λ d, (p.1, d)) <$> p.2) out.

Definition number_columns : list (Typed.row → option Z) :=
  [Typed.Num1; Typed.Num2; Typed.Num3; Typed.Num4; Typed.Num5; Typed.Powerball].

(** [for c in [...]: out = out[pd.notna(out[c])]] *)
Definition drop_missing_numbers (out : list Typed.row) : list Typed.row :=
  foldl (λ acc c, filter (λ t, notna (c t) = true) acc) out number_columns.

(** The helper columns and the column selection. *)
Definition wide_of (t : Typed.row) : Wide.row :=
  Wide.mk (Typed.Date t) (Typed.Num1 t) (Typed.Num2 t) (Typed.Num3 t)
    (Typed.Num4 t) (Typed.Num5 t) (Typed.Powerball t) (Typed.PowerPlay t)
    (year (Typed.Date t)) (year_month (Typed.Date t)).

Definition key_of (w : Wide.row) : draw_key :=
  (Wide.Date w, Wide.Num1 w, Wide.Num2 w, Wide.Num3 w, Wide.Num4 w,
   Wide.Num5 w, Wide.Powerball w, Wide.PowerPlay w).

Definition dedupe_by_draw (df : list Wide.row) : list Wide.row :=
  drop_duplicates key_of df.

(** The rows handed to [sort_values]. *)
Definition prepare (df : list Raw.row) : result (list Wide.row) :=
  let out := (λ r, (r, to_date r)) <$> df in
  let out := notna_Date out in
  out <-! clean_types out;
  let out := drop_missing_numbers out in
  Ok (wide_of <$> out).

Definition build_wide (df : list Raw.row) : result (list Wide.row) :=
  out <-! prepare df;
  let out := sort_values out in
  let out := dedupe_by_draw out in
  Ok out.

(** One row of [wide.melt(...)]. *)
Record melted : Type := mkMelted {
  m_Date : date; m_PowerPlay : option Z; m_Year : Z; m_YearMonth : string;
  m_variable : string; m_value : option Z
}.

Definition value_vars : list (string * (Wide.row → option Z)) :=
  [("Num1", Wide.Num1); ("Num2", Wide.Num2); ("Num3", Wide.Num3);
   ("Num4", Wide.Num4); ("Num5", Wide.Num5)].

(** [melt]: one block per value column, each in the order of [wide]. *)
Definition melt (wide : list Wide.row) : list melted :=
  '(name, get) ← value_vars;
  (λ w, mkMelted (Wide.Date w) (Wide.PowerPlay w) (Wide.Year w)
          (Wide.YearMonth w) name (get w)) <$> wide.

Definition main_row (m : melted) : result Long.row :=
  p <-! position_of (m_variable m);
  Ok (Long.mk (m_Date m) "Main" (m_value m) (PosInt p) (m_PowerPlay m)
        (m_Year m) (m_YearMonth m)).

Definition pb_row (w : Wide.row) : Long.row :=
  Long.mk (Wide.Date w) "Powerball" (Wide.Powerball w) (PosStr "PB")
    (Wide.PowerPlay w) (Wide.Year w) (Wide.YearMonth w).

(** The final cast of [BallNumber], a column that is already [Int64]. *)
Definition cast_BallNumber (l : Long.row) : result Long.row :=
  let n := match Long.BallNumber l with
           | Some z => NInt z
           | None => NFloat S754_nan
           end in
  b <-! astype_Int64 n;
  Ok (Long.mk (Long.Date l) (Long.BallType l) b (Long.Position l)
        (Long.PowerPlay l) (Long.Year l) (Long.YearMonth l)).

Definition build_long (wide : list Wide.row) : result (list Long.row) :=
  main <-! traverse main_row (melt wide);
  let pb := pb_row <$> wide in
  let long_df := main ++ pb in
  traverse cast_BallNumber long_df.

(** The data dictionary written by [main]. *)
Definition data_dict : Frame string string :=
  mkFrame ["column"; "description"]
    (zip_with (λ c d, [c; d])
       ["Date"; "Num1"; "Num2"; "Num3"; "Num4"; "Num5"; "Powerball";
        "PowerPlay"; "Year"; "YearMonth"; "BallType"; "BallNumber";
        "Position"]
       ["Draw date (YYYY-MM-DD)";
        "First main ball"; "Second main ball"; "Third main ball";
        "Fourth main ball"; "Fifth main ball";
        "Powerball number";
        "Power Play multiplier (may be blank)";
        "Calendar year";
        "YYYY-MM period string";
        "Main or Powerball (long format only)";
        "Ball number value";
        "Position: 1..5 for main, PB for Powerball (long only)"]).

(** The three tables that [main] writes out. *)
Record outputs : Type := mkOutputs {
  out_wide : list Wide.row;
  out_long : list Long.row;
  out_dict : Frame string string
}.

Definition main (df : Frame nat cell) : result outputs :=
  raw <-! read_powerball_csv df;
  wide <-! build_wide (Raw.records raw);
  long <-! build_long wide;
  Ok (mkOutputs wide long data_dict).
End Transformer.

(** Ascending order of the [Date] column. *)
Definition date_le (a b : Wide.row) : Prop :=
  date_leb (Wide.Date a) (Wide.Date b) = true.

Global Instance date_le_dec a b : Decision (date_le a b).
Proof. unfold date_le. apply _. Defined.

(** A stable merge sort: one algorithm that meets the contract assumed of
    [sort_values]. *)
Definition sort_by_date : list Wide.row → list Wide.row := merge_sort date_le.

(** The spec's sample file line [PB,01,05,2020,3,14,22,35,41,9,2]. *)
Definition sample_frame : Frame nat cell :=
  mkFrame (seq 0 11)
    [[CStr "PB"; CInt 1; CInt 5; CInt 2020; CInt 3; CInt 14; CInt 22; CInt 35;
      CInt 41; CInt 9; CInt 2]].

(** ** Loader *)

Module Loader.

Definition LONG_COLS : list string :=
  ["Date"; "BallType"; "BallNumber"; "Position"; "PowerPlay"; "Year";
   "YearMonth"].
Definition WIDE_COLS : list string :=
  ["Date"; "Num1"; "Num2"; "Num3"; "Num4"; "Num5"; "Powerball"; "PowerPlay";
   "Year"; "YearMonth"].

(** A schema is a Python dict, which keeps the order of its items. *)
Definition schema : Type := list (string * string).

Definition infer_schema (name : string) : result (schema * list string) :=
  if decide (name = "long") then
    Ok ([("Date", "TEXT"); ("BallType", "TEXT"); ("BallNumber", "INTEGER");
         ("Position", "TEXT"); ("PowerPlay", "INTEGER"); ("Year", "INTEGER");
         ("YearMonth", "TEXT")], LONG_COLS)
  else if decide (name = "wide") then
    Ok ([("Date", "TEXT"); ("Num1", "INTEGER"); ("Num2", "INTEGER");
         ("Num3", "INTEGER"); ("Num4", "INTEGER"); ("Num5", "INTEGER");
         ("Powerball", "INTEGER"); ("PowerPlay", "INTEGER");
         ("Year", "INTEGER"); ("YearMonth", "TEXT")], WIDE_COLS)
  else Raise (SystemExit ("Unknown schema: " +:+ name)).

(** A cell of the Loader's frame: text or NaN as read with [dtype=str],
    an [Int64] value ([None] is [<NA>]) after coercion. *)
Inductive lcell : Type :=
| LNaN
| LStr (s : string)
| LInt (v : option Z).

Global Instance lcell_eq_dec : EqDecision lcell.
Proof. solve_decision. Defined.

Definition cell_of (c : lcell) : cell :=
  match c with
  | LNaN => nan
  | LStr s => CStr s
  | LInt (Some z) => CInt z
  | LInt None => nan
  end.

(** [.astype(str)] on one cell. *)
Definition astype_str (c : lcell) : lcell :=
  match c with
  | LNaN => LStr "nan"
  | LStr s => LStr s
  | LInt (Some z) => LStr (pretty z)
  | LInt None => LStr "<NA>"
  end.

(** Python's [repr] of a list of plain names. *)
Definition repr_list (l : list string) : string :=
  "[" +:+ String.concat ", " ((λ s, "'" +:+ s +:+ "'") <$> l) +:+ "]".

(** Values bound to the [?] placeholders. *)
Inductive sqlval : Type :=
| SqlNull
| SqlInt (z : Z)
| SqlText (s : string).

Global Instance sqlval_eq_dec : EqDecision sqlval.
Proof. solve_decision. Defined.

(** [None if pd.isna(v) else (int(v) if ... else v)] *)
Definition to_sql (c : lcell) : sqlval :=
  match c with
  | LNaN => SqlNull
  | LInt None => SqlNull
  | LInt (Some z) => SqlInt z
  | LStr s => SqlText s
  end.

(** A table of the store: its declared columns and its rows, each row
    aligned with the columns. *)
Record table : Type := mkTable {
  t_schema : schema;
  t_rows : list (list sqlval)
}.

(** The store holds plain tables under their names.  A name is used as
    the quoted identifier ["name"]: it must not itself contain a double
    quote, and SQLite keeps the prefix [sqlite_] (in any case) for its
    own tables.  Names are compared as written; SQLite folds ASCII
    case, so a name stands for all its spellings. *)
Definition DQUOTE : Ascii.ascii := Ascii.ascii_of_nat 34.

Fixpoint no_dquote (name : string) : bool :=
  match name with
  | EmptyString => true
  | String a name' => negb (Ascii.eqb a DQUOTE) && no_dquote name'
  end.

Definition lower (a : Ascii.ascii) : Ascii.ascii :=
  let n := Ascii.nat_of_ascii a in
  if (65 <=? n)%nat && (n <=? 90)%nat then Ascii.ascii_of_nat (n + 32) else a.

Fixpoint lowercase (s : string) : string :=
  match s with
  | EmptyString => EmptyString
  | String a s' => String (lower a) (lowercase s')
  end.

Definition reserved_name (name : string) : bool :=
  String.prefix "sqlite_" (lowercase name).

Definition plain_name (name : string) : bool :=
  no_dquote name && negb (reserved_name name).

Section WithParser.
Variable parse_number : string → option numeric.

(** One column of [coerce_types]. *)
Definition coerce_cell (typ : string) (c : lcell) : result lcell :=
  if decide (typ = "INTEGER") then
    v <-! to_Int64 parse_number (cell_of c); Ok (LInt v)
  else Ok (astype_str c).

Definition coerce_column (i : nat) (typ : string) (df : Frame string lcell)
  : result (Frame string lcell) :=
  rows' <-! traverse (λ r,
              match r !! i with
              | Some c => c' <-! coerce_cell typ c; Ok (<[i:=c']> r)
              | None => Ok r
              end) (rows df);
  Ok (mkFrame (columns df) rows').

Fixpoint coerce_items (items : schema) (out : Frame string lcell)
  : result (Frame string lcell) :=
  match items with
  | [] => Ok out
  | (col, typ) :: items' =>
      match index_of col (columns out) with
      | None =>
          Raise (SystemExit ("Column '" +:+ col +:+ "' was not found in CSV."))
      | Some i => out' <-! coerce_column i typ out; coerce_items items' out'
      end
  end.

Definition coerce_types (df : Frame string lcell) (sch : schema)
  : result (Frame string lcell) :=
  coerce_items sch df.

(** [DROP TABLE IF EXISTS] when asked, then [CREATE TABLE IF NOT EXISTS]. *)
Definition create_table (conn : gmap string table) (name : string)
  (sch : schema) (replace : bool) : result (gmap string table) :=
  if plain_name name then
    let conn := if replace then delete name conn else conn in
    match conn !! name with
    | Some _ => Ok conn
    | None => Ok (<[name := mkTable sch []]> conn)
    end
  else Raise (OperationalError "syntax error").

(** The stored row for one tuple of an [INSERT] that names
    [ordered_cols]: columns that are not named get NULL. *)
Definition stored_row (sch : schema) (ordered_cols : list string)
  (vals : list sqlval) : list sqlval :=
  (λ c, default SqlNull (i ← index_of c ordered_cols; vals !! i)) <$> sch.*1.

Definition insert_rows (conn : gmap string table) (name : string)
  (df : Frame string lcell) (ordered_cols : list string)
  : result (gmap string table) :=
  match getitem_columns LNaN ordered_cols df with
  | None => Raise (KeyError "not in index")
  | Some sel =>
      let rows := (λ r, to_sql <$> r) <$> rows sel in
      if plain_name name then
        match conn !! name with
        | None => Raise (OperationalError "no such table")
        | Some t =>
            if decide (ordered_cols ⊆ (t_schema t).*1) then
              Ok (<[name := mkTable (t_schema t)
                     (t_rows t ++ (stored_row (t_schema t) ordered_cols <$> rows))]>
                    conn)
            else Raise (OperationalError "table has no such column")
        end
      else Raise (OperationalError "syntax error")
  end.

(** The command-line arguments; [csv] is [None] when the path does
    not exist, otherwise the frame read from it. *)
Record args : Type := mkArgs {
  a_csv : option (Frame string lcell);
  a_table : string;
  a_schema : string;
  a_replace : bool
}.

(** The tail of [main], from the trimmed frame on: coercion, then
    the store is opened, the table created and the rows inserted. *)
Definition load_frame (a : args) (sch : schema) (ordered_cols : list string)
  (df : Frame string lcell) (db : gmap string table)
  : gmap string table * result nat :=
  match coerce_types df sch with
  | Raise e => (db, Raise e)
  | Ok df =>
      match create_table db (a_table a) sch (a_replace a) with
      | Raise e => (db, Raise e)
      | Ok db1 =>
          match insert_rows db1 (a_table a) df ordered_cols with
          | Raise e => (db1, Raise e)
          | Ok db2 => (db2, Ok (nrows df))
          end
      end
  end.

(** [main] as a step on the store: the store it leaves, and either
    the reported row count or the exception that ended the run. *)
Definition main (a : args) (db : gmap string table)
  : gmap string table * result nat :=
  match a_csv a with
  | None => (db, Raise (SystemExit "CSV not found"))
  | Some df =>
      match infer_schema (a_schema a) with
      | Raise e => (db, Raise e)
      | Ok (sch, ordered_cols) =>
          let missing := missing_columns ordered_cols df in
          if decide (missing ≠ []) then
            (db, Raise (SystemExit
               ("CSV missing expected columns: " +:+ repr_list missing)))
          else
            match getitem_columns LNaN ordered_cols df with
            | None => (db, Raise (KeyError "not in index"))
            | Some df => load_frame a sch ordered_cols df db
            end
      end
  end.

(** Number of rows of a table of the store ([0] when absent). *)
Definition row_count (db : gmap string table) (name : string) : nat :=
  match db !! name with
  | Some t => length (t_rows t)
  | None => 0%nat
  end.
End WithParser.
End Loader.

(** A cleaned long file with one draw's first ball. *)
Definition sample_long : Frame string Loader.lcell :=
  mkFrame (Loader.LONG_COLS ++ ["Extra"])
    [[Loader.LStr "2020-01-05"; Loader.LStr "Main"; Loader.LStr "3";
      Loader.LStr "1"; Loader.LStr "2"; Loader.LStr "2020";
      Loader.LStr "2020-01"; Loader.LNaN]].


(** ** Notions used to state the properties *)

(** The 11-column table that a 10-column table stands for: the same
    rows with a null [PowerPlay] cell appended to each. *)
Definition with_null_PowerPlay (df : Frame nat cell) : Frame nat cell :=
  mkFrame (seq 0 11) ((λ r, r ++ [nan]) <$> rows df).

(** A typed row in which the six drawn numbers are all present. *)
Definition complete (t : Typed.row) : Prop :=
  notna (Typed.Num1 t) = true ∧ notna (Typed.Num2 t) = true ∧
  notna (Typed.Num3 t) = true ∧ notna (Typed.Num4 t) = true ∧
  notna (Typed.Num5 t) = true ∧ notna (Typed.Powerball t) = true.

Global Instance complete_dec t : Decision (complete t).
Proof. unfold complete. apply _. Defined.

(** The long row of the [n]-th main ball of a draw. *)
Definition main_ball (n : Z) (get : Wide.row → option Z) (w : Wide.row)
  : Long.row :=
  Long.mk (Wide.Date w) "Main" (get w) (PosInt n) (Wide.PowerPlay w)
    (Wide.Year w) (Wide.YearMonth w).

(** The six long rows that the spec associates with one wide row. *)
Definition expected_long_rows (w : Wide.row) : list Long.row :=
  [main_ball 1 Wide.Num1 w; main_ball 2 Wide.Num2 w; main_ball 3 Wide.Num3 w;
   main_ball 4 Wide.Num4 w; main_ball 5 Wide.Num5 w; pb_row w].



(** Rows to run the Transformer on: the spec's sample draw, and variants
    of it with one cell changed. *)
Definition sample_row : Raw.row :=
  Raw.mk (CStr "PB") (CInt 1) (CInt 5) (CInt 2020)
    (CInt 3) (CInt 14) (CInt 22) (CInt 35) (CInt 41) (CInt 9) (CInt 2).

Definition month13_row : Raw.row :=
  Raw.mk (CStr "PB") (CInt 13) (CInt 5) (CInt 2020)
    (CInt 3) (CInt 14) (CInt 22) (CInt 35) (CInt 41) (CInt 9) (CInt 2).

Definition no_PowerPlay_row : Raw.row :=
  Raw.mk (CStr "PB") (CInt 1) (CInt 5) (CInt 2020)
    (CInt 3) (CInt 14) (CInt 22) (CInt 35) (CInt 41) (CInt 9) nan.


(** The float64 3.5. *)
Definition three_and_a_half : spec_float :=
  S754_finite false 7881299347898368 (-51).

Definition fractional_row : Raw.row :=
  Raw.mk (CStr "PB") (CInt 1) (CInt 5) (CInt 2020)
    (CInt 3) (CFloat three_and_a_half) (CInt 22) (CInt 35) (CInt 41) (CInt 9)
    (CInt 2).


(** The wide row of the spec's sample draw, and of the same draw with no
    PowerPlay. *)
Definition sample_wide_row : Wide.row :=
  Wide.mk (mkDate 2020 1 5) (Some 3) (Some 14) (Some 22) (Some 35) (Some 41)
    (Some 9) (Some 2) 2020 "2020-01".

Definition sample_typed_row : Typed.row :=
  Typed.mk (mkDate 2020 1 5) (Some 3) (Some 14) (Some 22) (Some 35) (Some 41)
    (Some 9) (Some 2).

Definition no_PowerPlay_typed_row : Typed.row :=
  Typed.mk (mkDate 2020 1 5) (Some 3) (Some 14) (Some 22) (Some 35) (Some 41)
    (Some 9) None.


(** The names that the rows of a dictionary table describe. *)
Definition dictionary_columns (d : Frame string string) : list string :=
  omap head (rows d).

(** The column names documented in section 3 of the spec: the fields of
    the raw record, of the wide record and of the long record. *)
Definition section3_columns : list string :=
  ["Game"; "Month"; "Day"; "Year"; "Num1"; "Num2"; "Num3"; "Num4"; "Num5";
   "Powerball"; "PowerPlay"; "Date"; "YearMonth"; "BallType"; "BallNumber";
   "Position"].

(** Arguments of two Loader runs on the sample long file, with and
    without the replace flag, and the long schema. *)
Definition sample_replace_args : Loader.args :=
  Loader.mkArgs (Some sample_long) "draws" "long" true.

Definition sample_append_args : Loader.args :=
  Loader.mkArgs (Some sample_long) "draws" "long" false.

Definition long_schema : Loader.schema :=
  Eval cbv in
    match Loader.infer_schema "long" with
    | Ok (sch, _) => sch
    | Raise _ => []
    end.

(** A long file that lacks the BallNumber and Year columns. *)
Definition short_long : Frame string Loader.lcell :=
  mkFrame ["Date"; "BallType"; "Position"; "PowerPlay"; "YearMonth"]
    [[Loader.LStr "2020-01-05"; Loader.LStr "Main"; Loader.LStr "1";
      Loader.LStr "2"; Loader.LStr "2020-01"]].



(** The raw record read off a row by position: field 0 is Game, field 1
    Month, ..., field 10 PowerPlay (NaN when the row has no such field). *)
Definition positional (r : list cell) : Raw.row :=
  let get (i : nat) := default nan (r !! i) in
  Raw.mk (get 0%nat) (get 1%nat) (get 2%nat) (get 3%nat) (get 4%nat)
    (get 5%nat) (get 6%nat) (get 7%nat) (get 8%nat) (get 9%nat) (get 10%nat).

(** The sample line as a 10-column file line, without PowerPlay. *)
Definition sample_frame_10 : Frame nat cell :=
  mkFrame (seq 0 10)
    [[CStr "PB"; CInt 1; CInt 5; CInt 2020; CInt 3; CInt 14; CInt 22; CInt 35;
      CInt 41; CInt 9]].

(** Row [r'] is row [r] after [coerce_types]: same width, the cell under
    a schema column replaced by its coercion to the column's type, every
    other cell as it was. *)
Definition coerced_cells (parse_number : string → option numeric)
  (cols : list string) (sch : Loader.schema) (r r' : list Loader.lcell) : Prop :=
  length r' = length r ∧
  ∀ (j : nat) (c : string), cols !! j = Some c →
    (c ∉ sch.*1 → r' !! j = r !! j) ∧
    (∀ typ x, (c, typ) ∈ sch → r !! j = Some x →
       ∃ y, Loader.coerce_cell parse_number typ x = Ok y ∧ r' !! j = Some y).

(** The sample long file cut down to the long columns, before and after
    coercion. *)
Definition sample_long_trimmed : Frame string Loader.lcell :=
  mkFrame Loader.LONG_COLS
    [[Loader.LStr "2020-01-05"; Loader.LStr "Main"; Loader.LStr "3";
      Loader.LStr "1"; Loader.LStr "2"; Loader.LStr "2020";
      Loader.LStr "2020-01"]].

Definition sample_long_coerced : Frame string Loader.lcell :=
  mkFrame Loader.LONG_COLS
    [[Loader.LStr "2020-01-05"; Loader.LStr "Main"; Loader.LInt (Some 3);
      Loader.LStr "1"; Loader.LInt (Some 2); Loader.LInt (Some 2020);
      Loader.LStr "2020-01"]].


(** * Properties *)

(** ** Results *)

Lemma bind_Ok {A B} (m : result A) (k : A → result B) b :
  bind m k = Ok b ↔ ∃ a, m = Ok a ∧ k a = Ok b.
Proof.
  destruct m as [a|e]; simpl; split.
  - eauto.
  - by intros (a' & [= <-] & ?).
  - done.
  - by intros (? & ? & ?).
Qed.

Lemma traverse_Ok_Forall2 {A B} (f : A → result B) l bs :
  traverse f l = Ok bs ↔ Forall2 (λ a b, f a = Ok b) l bs.
Proof.
  revert bs. induction l as [|a l IH]; intros bs; simpl.
  - split; [intros [= <-]; constructor | by inversion 1].
  - rewrite bind_Ok. split.
    + intros (b & Hb & Hrest). apply bind_Ok in Hrest as (bs' & Hbs' & [= <-]).
      constructor; [done | by apply IH].
    + inversion 1 as [|? b ? bs' Hb Hbs']; subst. exists b. split; [done|].
      apply bind_Ok. exists bs'. split; [by apply IH | done].
Qed.

Lemma Forall2_elem_of_left {A B} (P : A → B → Prop) l k x :
  Forall2 P l k → x ∈ l → ∃ y, y ∈ k ∧ P x y.
Proof.
  induction 1 as [|a b l k Hab _ IH]; [by intros ?%elem_of_nil|].
  intros [->|Hx]%elem_of_cons.
  - exists b. split; [left | done].
  - destruct (IH Hx) as (y & ? & ?). exists y. split; [by right | done].
Qed.

Lemma Forall2_elem_of_right {A B} (P : A → B → Prop) l k y :
  Forall2 P l k → y ∈ k → ∃ x, x ∈ l ∧ P x y.
Proof.
  induction 1 as [|a b l k Hab _ IH]; [by intros ?%elem_of_nil|].
  intros [->|Hy]%elem_of_cons.
  - exists a. split; [left | done].
  - destruct (IH Hy) as (x & ? & ?). exists x. split; [by right | done].
Qed.

Lemma traverse_app {A B} (f : A → result B) l1 l2 :
  traverse f (l1 ++ l2) =
  (bs1 <-! traverse f l1; bs2 <-! traverse f l2; Ok (bs1 ++ bs2)).
Proof.
  induction l1 as [|a l1 IH]; simpl.
  - by destruct (traverse f l2).
  - destruct (f a); simpl; [|done]. rewrite IH.
    destruct (traverse f l1); simpl; [|done].
    by destruct (traverse f l2).
Qed.

Lemma traverse_total_is_ok {A B} (f : A → result B) l :
  (∀ a, a ∈ l → is_ok (f a) = true) → is_ok (traverse f l) = true.
Proof.
  induction l as [|a l IH]; intros Hf; [done|]. cbn [traverse].
  pose proof (Hf a (list_elem_of_here _ _)) as Ha.
  destruct (f a); [|done]. cbn [bind].
  destruct (traverse f l); [done|]. apply IH. intros ??. apply Hf. by right.
Qed.

Lemma traverse_total {A B} (f : A → result B) (g : A → B) l :
  (∀ a, a ∈ l → f a = Ok (g a)) → traverse f l = Ok (g <$> l).
Proof.
  induction l as [|a l IH]; intros Hf; simpl; [done|].
  rewrite Hf by left. simpl. rewrite IH; [done|].
  intros ??. apply Hf. by right.
Qed.

(** ** Frames *)

Lemma take_cells_all {C} (d : C) (r : list C) :
  take_cells d (seq 0 (length r)) r = r.
Proof.
  unfold take_cells. apply list_eq. intros i.
  rewrite list_lookup_fmap.
  destruct (decide (i < length r)%nat) as [Hi|Hi].
  - rewrite lookup_seq_lt by done. simpl.
    destruct (lookup_lt_is_Some_2 r i Hi) as [x Hx]. by rewrite Hx.
  - rewrite lookup_seq_ge by lia. simpl.
    symmetry. apply lookup_ge_None. lia.
Qed.

Lemma index_of_Some `{EqDecision L} (c : L) cols i :
  index_of c cols = Some i → cols !! i = Some c.
Proof.
  revert i. induction cols as [|c' cols IH]; intros i; simpl; [done|].
  case_decide as Hc.
  - by intros [= <-]; subst.
  - destruct (index_of c cols) as [j|]; simpl; [|done].
    intros [= <-]. by apply IH.
Qed.

Lemma index_of_None `{EqDecision L} (c : L) cols :
  index_of c cols = None ↔ c ∉ cols.
Proof.
  induction cols as [|c' cols IH]; simpl.
  - split; [intros _; apply not_elem_of_nil | done].
  - case_decide as Hc.
    + subst. split; [done|]. intros []. left.
    + rewrite not_elem_of_cons. destruct (index_of c cols); simpl.
      * split; [done|]. intros [_ H]. by apply IH in H.
      * split; [|done]. intros _. split; [done|]. by apply IH.
Qed.

Lemma mapM_index_of_is_Some `{EqDecision L} (cols have : list L) :
  cols ⊆ have → is_Some (mapM (λ c, index_of c have) cols).
Proof.
  intros Hsub. apply mapM_is_Some. apply Forall_forall. intros c Hc.
  destruct (index_of c have) eqn:E; [by eexists|].
  apply index_of_None in E. destruct E. by apply Hsub.
Qed.

Lemma missing_columns_nil `{EqDecision L} {C} (cols : list L) (df : Frame L C) :
  missing_columns cols df = [] ↔ cols ⊆ columns df.
Proof.
  unfold missing_columns. split.
  - intros Hnil c Hc. destruct (decide (c ∈ columns df)) as [|Hn]; [done|].
    exfalso. by eapply (filter_nil_not_elem_of (λ c, c ∉ columns df)).
  - induction cols as [|c cols IH]; intros Hsub; [done|].
    rewrite filter_cons_False.
    + apply IH. intros x Hx. apply Hsub. by right.
    + intros Hn. apply Hn, Hsub. left.
Qed.

Lemma missing_columns_spec `{EqDecision L} {C} (cols : list L) (df : Frame L C) c :
  c ∈ missing_columns cols df ↔ c ∈ cols ∧ c ∉ columns df.
Proof. unfold missing_columns. rewrite list_elem_of_filter. tauto. Qed.

Lemma mapM_index_of_lookup `{EqDecision L} (cols have : list L) idxs :
  mapM (λ c, index_of c have) cols = Some idxs →
  Forall2 (λ c i, have !! i = Some c) cols idxs.
Proof.
  rewrite mapM_Some. intros H. eapply Forall2_impl; [exact H|].
  intros c i. apply index_of_Some.
Qed.

(** ** Ingestor *)

Lemma read_powerball_csv_11 (df : Frame nat cell) :
  shape1 df = 11%nat →
  read_powerball_csv df =
    Ok (mkFrame EXPECTED_WITH_POWERPLAY (take_cells nan (seq 0 11) <$> rows df)).
Proof.
  intros H11. unfold read_powerball_csv. by rewrite decide_True.
Qed.

Lemma read_powerball_csv_10 (df : Frame nat cell) :
  shape1 df = 10%nat →
  read_powerball_csv df =
    Ok (mkFrame EXPECTED_WITH_POWERPLAY
          (take_cells nan (seq 0 11) <$> ((λ r, r ++ [nan]) <$> rows df))).
Proof.
  intros H10. unfold read_powerball_csv.
  rewrite decide_False by lia. by rewrite decide_True.
Qed.

(** C4. An 11-column table whose rows are all 11 cells wide comes out
    with the same cells under the eleven fixed labels, in order; a
    10-column table comes out as the 11-column table obtained by
    appending a null PowerPlay cell to every row does. *)
Theorem ingestor_preserves_table (df : Frame nat cell) :
  Forall (λ r, length r = shape1 df) (rows df) →
  (shape1 df = 11%nat →
     read_powerball_csv df = Ok (mkFrame EXPECTED_WITH_POWERPLAY (rows df))) ∧
  (shape1 df = 10%nat →
     read_powerball_csv df = read_powerball_csv (with_null_PowerPlay df) ∧
     read_powerball_csv df =
       Ok (mkFrame EXPECTED_WITH_POWERPLAY ((λ r, r ++ [nan]) <$> rows df)) ∧
     Forall (λ r, Raw.PowerPlay (Raw.of_cells EXPECTED_WITH_POWERPLAY r) = nan)
       ((λ r, r ++ [nan]) <$> rows df)).
Proof.
  intros Hwf. split.
  - intros H11. rewrite read_powerball_csv_11 by done. do 2 f_equal.
    rewrite <- (list_fmap_id (rows df)) at 2. apply Forall_fmap_ext_1.
    eapply Forall_impl; [exact Hwf|]. intros r Hr.
    rewrite H11 in Hr. rewrite <- Hr. apply take_cells_all.
  - intros H10. split; [|split].
    + rewrite read_powerball_csv_10 by done.
      by rewrite (read_powerball_csv_11 (with_null_PowerPlay df)).
    + rewrite read_powerball_csv_10 by done. do 2 f_equal.
      rewrite <- (list_fmap_id ((λ r, r ++ [nan]) <$> rows df)) at 2.
      apply Forall_fmap_ext_1. apply Forall_fmap.
      eapply Forall_impl; [exact Hwf|]. intros r Hr.
      rewrite H10 in Hr.
      replace 11%nat with (length (r ++ [nan])); [apply take_cells_all|].
      rewrite length_app. simpl. lia.
    + apply Forall_fmap. eapply Forall_impl; [exact Hwf|]. intros r Hr. simpl.
      rewrite H10 in Hr.
      do 11 (destruct r as [|? r]; [done|]). by destruct r.
Qed.

Lemma ingestor_preserves_table_witness :
  read_powerball_csv sample_frame =
    Ok (mkFrame EXPECTED_WITH_POWERPLAY (rows sample_frame)).
Proof.
  refine (proj1 (ingestor_preserves_table sample_frame _) _).
  - repeat constructor.
  - reflexivity.
Defined.

(** C7. The Ingestor raises the unexpected-column-count error exactly
    when the table is neither 10 nor 11 columns wide, and then returns no
    table; for widths 10 and 11 it returns a table. *)
Theorem ingestor_column_count_error (df : Frame nat cell) :
  (read_powerball_csv df = Raise (ValueError (unexpected_columns_msg (shape1 df)))
   ↔ shape1 df ≠ 10%nat ∧ shape1 df ≠ 11%nat) ∧
  (is_ok (read_powerball_csv df) = false
   ↔ shape1 df ≠ 10%nat ∧ shape1 df ≠ 11%nat) ∧
  (is_ok (read_powerball_csv df) = true
   ↔ shape1 df = 10%nat ∨ shape1 df = 11%nat).
Proof.
  destruct (decide (shape1 df = 11%nat)) as [H11|H11].
  { rewrite read_powerball_csv_11 by done. simpl. repeat split; try done; lia || auto. }
  destruct (decide (shape1 df = 10%nat)) as [H10|H10].
  { rewrite read_powerball_csv_10 by done. simpl. repeat split; try done; lia || auto. }
  unfold read_powerball_csv. rewrite !decide_False by done. simpl.
  repeat split; try done; intros; lia.
Qed.

(** ** Dates *)

Lemma date_leb_le (a b : date) :
  date_leb a b = true ↔
  year a < year b ∨
  (year a = year b ∧ (month a < month b ∨ (month a = month b ∧ day a ≤ day b))).
Proof.
  unfold date_leb, date_compare.
  destruct (Z.compare_spec (year a) (year b));
    destruct (Z.compare_spec (month a) (month b));
    destruct (Z.compare_spec (day a) (day b)); split; intros; (done || lia).
Qed.

Global Instance date_le_trans : Transitive date_le.
Proof. intros a b c. unfold date_le. rewrite !date_leb_le. lia. Qed.

Global Instance date_le_total : Total date_le.
Proof. intros a b. unfold date_le. rewrite !date_leb_le. lia. Qed.

Lemma to_datetime_Some (y m d : numeric) (dt : date) :
  to_datetime y m d = Some dt →
  int_of y = Some (year dt) ∧ int_of m = Some (month dt) ∧
  int_of d = Some (day dt) ∧ valid_date dt = true ∧ in_bounds dt = true.
Proof.
  unfold to_datetime.
  destruct (int_of y) as [y'|], (int_of m) as [m'|], (int_of d) as [d'|];
    try done.
  destruct (valid_date _) eqn:Hv, (in_bounds _) eqn:Hb; simpl; try done.
  by intros [= <-].
Qed.



Lemma month_out_of_range (y m d : Z) :
  ¬ (1 ≤ m ≤ 12) → valid_date (mkDate y m d) = false.
Proof.
  intros Hm. unfold valid_date. simpl.
  destruct (1 <=? m) eqn:H1, (m <=? 12) eqn:H2; try done. lia.
Qed.

(** ** Dropping duplicates *)

Section drop_duplicates.
Context {A K : Type} `{EqDecision K} (key : A → K).

Lemma drop_duplicates_from_filter seen l k :
  filter (λ x, key x = k) (drop_duplicates_from key seen l) =
  if decide (k ∈ seen) then [] else take 1 (filter (λ x, key x = k) l).
Proof.
  revert seen. induction l as [|x l IH]; intros seen.
  { simpl. by case_decide. }
  cbn [drop_duplicates_from].
  destruct (decide (key x ∈ seen)) as [Hx|Hx].
  - rewrite IH. destruct (decide (key x = k)) as [<-|Hk].
    + by rewrite !decide_True by done.
    + by rewrite (filter_cons_False _ x l).
  - destruct (decide (key x = k)) as [<-|Hk].
    + rewrite !filter_cons_True by done. rewrite IH.
      rewrite (decide_True (P := key x ∈ key x :: seen)) by left.
      by rewrite (decide_False (P := key x ∈ seen)).
    + rewrite !filter_cons_False by done. rewrite IH.
      destruct (decide (k ∈ seen)) as [Hs|Hs].
      * rewrite decide_True; [done|by right].
      * rewrite decide_False; [done|]. rewrite elem_of_cons. intros [?|?]; auto.
Qed.

(** The rows kept for a key are exactly the first row that has it. *)
Lemma drop_duplicates_filter l k :
  filter (λ x, key x = k) (drop_duplicates key l) =
  take 1 (filter (λ x, key x = k) l).
Proof.
  unfold drop_duplicates. rewrite drop_duplicates_from_filter.
  rewrite decide_False; [done | apply not_elem_of_nil].
Qed.

Lemma drop_duplicates_from_sublist seen l :
  drop_duplicates_from key seen l `sublist_of` l.
Proof.
  revert seen. induction l as [|x l IH]; intros seen; simpl; [done|].
  case_decide; [apply sublist_cons | apply sublist_skip]; apply IH.
Qed.

Lemma drop_duplicates_sublist l : drop_duplicates key l `sublist_of` l.
Proof. apply drop_duplicates_from_sublist. Qed.

Lemma drop_duplicates_elem_of l x :
  x ∈ l → ∃ y, y ∈ drop_duplicates key l ∧ key y = key x ∧
               head (filter (λ z, key z = key x) l) = Some y.
Proof.
  intros Hx.
  assert (x ∈ filter (λ z, key z = key x) l) as Hf
    by (by apply list_elem_of_filter).
  pose proof (drop_duplicates_filter l (key x)) as Heq.
  destruct (filter (λ z, key z = key x) l) as [|y fl] eqn:E.
  { by apply elem_of_nil in Hf. }
  exists y. simpl in Heq. rewrite take_0 in Heq.
  assert (y ∈ filter (λ z, key z = key x) (drop_duplicates key l)) as Hy
    by (rewrite Heq; left).
  apply list_elem_of_filter in Hy as [Hk Hy]. done.
Qed.

Lemma drop_duplicates_keys_NoDup l : NoDup (key <$> drop_duplicates key l).
Proof.
  unfold drop_duplicates.
  cut (∀ seen, NoDup (key <$> drop_duplicates_from key seen l) ∧
               ∀ k, k ∈ key <$> drop_duplicates_from key seen l → k ∉ seen).
  { intros H. apply H. }
  induction l as [|x l IH]; intros seen; simpl.
  { split; [constructor | by intros k ?%elem_of_nil]. }
  case_decide as Hx; [apply IH|].
  destruct (IH (key x :: seen)) as [Hnd Hnot]. split.
  - simpl. constructor; [|done]. intros Hin. apply (Hnot _ Hin). left.
  - intros k. simpl. rewrite elem_of_cons. intros [->|Hin]; [done|].
    intros Hs. apply (Hnot _ Hin). by right.
Qed.
End drop_duplicates.

Lemma StronglySorted_sublist {A} (R : relation A) (k l : list A) :
  k `sublist_of` l → StronglySorted R l → StronglySorted R k.
Proof.
  induction 1 as [|x k l Hs IH|x k l Hs IH]; intros Hl; [done| |].
  - apply StronglySorted_inv in Hl as [Hl Hx]. constructor; [by apply IH|].
    apply Forall_forall. intros y Hy.
    eapply (proj1 (Forall_forall _ _) Hx), elem_of_sublist; eauto.
  - apply StronglySorted_inv in Hl as [Hl _]. by apply IH.
Qed.

(** ** Transformer: the rows that reach the sort *)

Section prepare.
Context (parse_number : string → option numeric).

Local Abbreviation to_date' := (to_date parse_number).
Local Abbreviation clean_row' := (clean_row parse_number).
Local Abbreviation clean_types' := (clean_types parse_number).
Local Abbreviation prepare' := (prepare parse_number).

Lemma drop_missing_numbers_filter out :
  drop_missing_numbers out = filter complete out.
Proof.
  unfold drop_missing_numbers, number_columns. simpl.
  rewrite !list_filter_filter. apply list_filter_iff.
  intros t. unfold complete. tauto.
Qed.



Lemma elem_of_notna_Date (df : list Raw.row) r d :
  (r, d) ∈ notna_Date ((λ r, (r, to_date' r)) <$> df) ↔
  r ∈ df ∧ to_date' r = Some d.
Proof.
  unfold notna_Date. rewrite list_elem_of_omap. split.
  - intros ([r' od] & Hin & Heq). apply list_elem_of_fmap in Hin as (r'' & [= -> ->] & Hin).
    simpl in Heq. by destruct (to_date' r'') as [d'|] eqn:E; simplify_eq/=.
  - intros [Hin Hd]. exists (r, to_date' r). split.
    + apply list_elem_of_fmap. eauto.
    + simpl. by rewrite Hd.
Qed.

(** The prepared rows are the images of the rows that keep a date,
    convert, and have their six numbers. *)
Lemma prepare_Ok (df : list Raw.row) prep :
  prepare' df = Ok prep ↔
  ∃ ts, clean_types' (notna_Date ((λ r, (r, to_date' r)) <$> df)) = Ok ts ∧
        prep = wide_of <$> filter complete ts.
Proof.
  unfold prepare. rewrite bind_Ok. split.
  - intros (ts & Hts & [= <-]). exists ts.
    by rewrite drop_missing_numbers_filter.
  - intros (ts & Hts & ->). exists ts.
    by rewrite drop_missing_numbers_filter.
Qed.

Lemma elem_of_prepare (df : list Raw.row) prep w :
  prepare' df = Ok prep →
  w ∈ prep ↔
  ∃ r d t, r ∈ df ∧ to_date' r = Some d ∧ clean_row' (r, d) = Ok t ∧
           complete t ∧ w = wide_of t.
Proof.
  intros (ts & Hts & ->)%prepare_Ok.
  apply traverse_Ok_Forall2 in Hts.
  rewrite list_elem_of_fmap. split.
  - intros (t & -> & Ht). apply list_elem_of_filter in Ht as [Hc Ht].
    destruct (Forall2_elem_of_right _ _ _ _ Hts Ht) as ([r d] & Hin & Hrow).
    apply elem_of_notna_Date in Hin as [Hin Hd].
    by exists r, d, t.
  - intros (r & d & t & Hin & Hd & Hrow & Hc & ->). exists t. split; [done|].
    apply list_elem_of_filter. split; [done|].
    assert ((r, d) ∈ notna_Date ((λ r, (r, to_date' r)) <$> df)) as Hp
      by (by apply elem_of_notna_Date).
    destruct (Forall2_elem_of_left _ _ _ _ Hts Hp) as (t' & Ht' & Hrow').
    by replace t with t' by congruence.
Qed.



(** The casts are the only step that can raise. *)
Lemma prepare_is_ok (df : list Raw.row) :
  is_ok (prepare' df) = true ↔
  ∀ r d, r ∈ df → to_date' r = Some d → is_ok (clean_row' (r, d)) = true.
Proof.
  split.
  - intros Hok r d Hin Hd. destruct (prepare' df) as [prep|] eqn:E; [|done].
    apply prepare_Ok in E as (ts & Hts & _).
    apply traverse_Ok_Forall2 in Hts.
    assert ((r, d) ∈ notna_Date ((λ r, (r, to_date' r)) <$> df)) as Hp
      by (by apply elem_of_notna_Date).
    destruct (Forall2_elem_of_left _ _ _ _ Hts Hp) as (t & _ & Hrow).
    by rewrite Hrow.
  - intros Hall. unfold prepare, clean_types.
    assert (∀ p, p ∈ notna_Date ((λ r, (r, to_date' r)) <$> df) →
              is_ok (clean_row' p) = true) as Hps.
    { intros [r d] [??]%elem_of_notna_Date. eauto. }
    apply (traverse_total_is_ok clean_row') in Hps.
    by destruct (traverse _ _).
Qed.
End prepare.

(** ** Transformer: the long table *)

Lemma traverse_fmap_total {A B C} (f : B → result C) (g : A → B) (h : A → C) l :
  (∀ a, f (g a) = Ok (h a)) → traverse f (g <$> l) = Ok (h <$> l).
Proof.
  intros Hf. induction l as [|a l IH]; [done|].
  rewrite fmap_cons. cbn [traverse]. rewrite Hf. cbn [bind].
  by rewrite IH.
Qed.

Lemma cast_BallNumber_id (l : Long.row) : cast_BallNumber l = Ok l.
Proof. by destruct l as [? ? [z|] ? ? ? ?]. Qed.

Lemma fmap_app_bind_Permutation {A B} (f : A → B) (g : A → list B) (l : list A) :
  (f <$> l) ++ (l ≫= g) ≡ₚ l ≫= (λ a, f a :: g a).
Proof.
  induction l as [|a l IH]; [done|].
  rewrite fmap_cons, !bind_cons. cbn [app]. constructor.
  rewrite <- IH. apply Permutation_app_swap_app.
Qed.

(** [build_long] never raises, and lays the table out in six blocks. *)
Lemma build_long_Ok (wide : list Wide.row) :
  build_long wide =
  Ok ((main_ball 1 Wide.Num1 <$> wide) ++ (main_ball 2 Wide.Num2 <$> wide) ++
      (main_ball 3 Wide.Num3 <$> wide) ++ (main_ball 4 Wide.Num4 <$> wide) ++
      (main_ball 5 Wide.Num5 <$> wide) ++ (pb_row <$> wide)).
Proof.
  unfold build_long, melt, value_vars.
  cbn [mbind list_bind app].
  rewrite app_nil_r.
  rewrite !traverse_app.
  rewrite (traverse_fmap_total main_row _ (main_ball 1 Wide.Num1)) by done.
  rewrite (traverse_fmap_total main_row _ (main_ball 2 Wide.Num2)) by done.
  rewrite (traverse_fmap_total main_row _ (main_ball 3 Wide.Num3)) by done.
  rewrite (traverse_fmap_total main_row _ (main_ball 4 Wide.Num4)) by done.
  rewrite (traverse_fmap_total main_row _ (main_ball 5 Wide.Num5)) by done.
  cbn [bind].
  rewrite <- !(assoc_L (++)).
  rewrite <- (list_fmap_id (_ ++ _)) at 2.
  apply traverse_total. intros l _. apply cast_BallNumber_id.
Qed.

Lemma fmap_as_bind {A B} (f : A → B) (l : list A) : f <$> l = l ≫= (λ a, [f a]).
Proof. induction l as [|a l IH]; [done|]. by rewrite fmap_cons, bind_cons, IH. Qed.

Lemma build_long_rows_expected (wide : list Wide.row) :
  ∃ long,
    build_long wide = Ok long ∧
    (∀ l, l ∈ long → ∃ w, w ∈ wide ∧ l ∈ expected_long_rows w).
Proof.
  eexists. split; [apply build_long_Ok|].
  intros l. rewrite !elem_of_app, !list_elem_of_fmap. unfold expected_long_rows.
  intros [(w & -> & ?)|[(w & -> & ?)|[(w & -> & ?)|[(w & -> & ?)|
           [(w & -> & ?)|(w & -> & ?)]]]]];
    exists w; (split; [done|]); rewrite !elem_of_cons; auto 10.
Qed.

(** C2. The long table built from a wide table holds, for every wide
    row, its five Main rows (Position 1..5, BallNumber Num1..Num5) and its
    Powerball row (Position "PB"), each with the Date, PowerPlay, Year and
    YearMonth of the wide row, and nothing else: it is a rearrangement of
    the six expected rows of every wide row. *)
Theorem long_table_six_rows_per_draw (wide : list Wide.row) :
  ∃ long,
    build_long wide = Ok long ∧
    long ≡ₚ wide ≫= expected_long_rows ∧
    length long = (6 * length wide)%nat ∧
    (∀ l, l ∈ long ↔ ∃ w, w ∈ wide ∧ l ∈ expected_long_rows w).
Proof.
  eexists. split; [apply build_long_Ok|].
  assert ((main_ball 1 Wide.Num1 <$> wide) ++ (main_ball 2 Wide.Num2 <$> wide) ++
          (main_ball 3 Wide.Num3 <$> wide) ++ (main_ball 4 Wide.Num4 <$> wide) ++
          (main_ball 5 Wide.Num5 <$> wide) ++ (pb_row <$> wide)
          ≡ₚ wide ≫= expected_long_rows) as Hperm.
  { rewrite (fmap_as_bind pb_row). by rewrite !fmap_app_bind_Permutation. }
  split; [done|]. split.
  - rewrite !length_app, !length_fmap. lia.
  - intros l. rewrite Hperm, list_elem_of_bind.
    split; intros (w & ? & ?); by exists w.
Qed.

(** ** Transformer: the wide table *)

Lemma wide_of_key_inj (t1 t2 : Typed.row) :
  key_of (wide_of t1) = key_of (wide_of t2) → wide_of t1 = wide_of t2.
Proof.
  destruct t1, t2. unfold key_of, wide_of. simpl. by intros [= -> -> -> -> -> -> -> ->].
Qed.

Lemma complete_wide_of (t : Typed.row) :
  complete t →
  is_Some (Wide.Num1 (wide_of t)) ∧ is_Some (Wide.Num2 (wide_of t)) ∧
  is_Some (Wide.Num3 (wide_of t)) ∧ is_Some (Wide.Num4 (wide_of t)) ∧
  is_Some (Wide.Num5 (wide_of t)) ∧ is_Some (Wide.Powerball (wide_of t)).
Proof.
  destruct t as [? [?|] [?|] [?|] [?|] [?|] [?|] ?]; unfold complete; simpl;
    by intros (? & ? & ? & ? & ? & ?).
Qed.


Section wide.
Context (parse_number : string → option numeric).
Context (sort_values : list Wide.row → list Wide.row).

Local Abbreviation to_numeric' := (to_numeric parse_number).
Local Abbreviation to_date' := (to_date parse_number).
Local Abbreviation clean_row' := (clean_row parse_number).
Local Abbreviation prepare' := (prepare parse_number).
Local Abbreviation build_wide' := (build_wide parse_number sort_values).

Lemma build_wide_Ok (df : list Raw.row) wide :
  build_wide' df = Ok wide ↔
  ∃ prep, prepare' df = Ok prep ∧ wide = dedupe_by_draw (sort_values prep).
Proof.
  unfold build_wide. rewrite bind_Ok. split.
  - intros (prep & ? & [= <-]). by exists prep.
  - intros (prep & ? & ->). by exists prep.
Qed.


(** The table is produced exactly when every dated row converts. *)
Lemma build_wide_is_ok (df : list Raw.row) :
  is_ok (build_wide' df) = true ↔
  ∀ r d, r ∈ df → to_date' r = Some d → is_ok (clean_row' (r, d)) = true.
Proof.
  rewrite <- prepare_is_ok. unfold build_wide.
  by destruct (prepare' df).
Qed.

(** What [sort_values] is assumed to guarantee. *)
Hypothesis sort_values_perm : ∀ l, sort_values l ≡ₚ l.

Lemma elem_of_build_wide (df : list Raw.row) wide w :
  build_wide' df = Ok wide → w ∈ wide →
  ∃ r d t, r ∈ df ∧ to_date' r = Some d ∧ clean_row' (r, d) = Ok t ∧
           complete t ∧ w = wide_of t.
Proof.
  intros (prep & Hprep & ->)%build_wide_Ok Hw.
  apply (elem_of_prepare _ _ _ w Hprep).
  rewrite <- (sort_values_perm prep).
  eapply elem_of_sublist; [exact Hw | apply drop_duplicates_sublist].
Qed.

Lemma build_wide_keeps (df : list Raw.row) wide r d t :
  build_wide' df = Ok wide →
  r ∈ df → to_date' r = Some d → clean_row' (r, d) = Ok t → complete t →
  ∃ prep, prepare' df = Ok prep ∧ wide = dedupe_by_draw (sort_values prep) ∧
    wide_of t ∈ wide ∧
    head (filter (λ w, key_of w = key_of (wide_of t)) (sort_values prep))
      = Some (wide_of t) ∧
    filter (λ w, key_of w = key_of (wide_of t)) wide = [wide_of t].
Proof.
  intros (prep & Hprep & ->)%build_wide_Ok Hin Hd Hrow Hc.
  exists prep. split; [done|]. split; [done|].
  assert (wide_of t ∈ sort_values prep) as Hs.
  { rewrite sort_values_perm. apply (elem_of_prepare _ _ _ _ Hprep).
    by exists r, d, t. }
  destruct (drop_duplicates_elem_of key_of _ _ Hs) as (y & Hy & Hk & Hhead).
  assert (y ∈ prep) as Hyp.
  { rewrite <- (sort_values_perm prep).
    eapply elem_of_sublist; [exact Hy | apply drop_duplicates_sublist]. }
  apply (elem_of_prepare _ _ _ _ Hprep) in Hyp
    as (r' & d' & t' & _ & _ & _ & _ & ->).
  apply wide_of_key_inj in Hk. rewrite Hk in Hy, Hhead.
  split; [done|]. split; [done|].
  unfold dedupe_by_draw. rewrite drop_duplicates_filter.
  destruct (filter _ (sort_values prep)) as [|x xs]; [done|].
  simpl in Hhead. injection Hhead as ->. by rewrite firstn_cons, take_0.
Qed.

Lemma clean_row_inv (r : Raw.row) (d : date) (t : Typed.row) :
  clean_row' (r, d) = Ok t →
  Typed.Date t = d ∧
  to_Int64 parse_number (Raw.Num1 r) = Ok (Typed.Num1 t) ∧
  to_Int64 parse_number (Raw.Num2 r) = Ok (Typed.Num2 t) ∧
  to_Int64 parse_number (Raw.Num3 r) = Ok (Typed.Num3 t) ∧
  to_Int64 parse_number (Raw.Num4 r) = Ok (Typed.Num4 t) ∧
  to_Int64 parse_number (Raw.Num5 r) = Ok (Typed.Num5 t) ∧
  to_Int64 parse_number (Raw.Powerball r) = Ok (Typed.Powerball t) ∧
  to_Int64 parse_number (Raw.PowerPlay r) = Ok (Typed.PowerPlay t).
Proof.
  unfold clean_row.
  destruct (to_Int64 _ (Raw.Num1 r)); [|done].
  destruct (to_Int64 _ (Raw.Num2 r)); [|done].
  destruct (to_Int64 _ (Raw.Num3 r)); [|done].
  destruct (to_Int64 _ (Raw.Num4 r)); [|done].
  destruct (to_Int64 _ (Raw.Num5 r)); [|done].
  destruct (to_Int64 _ (Raw.Powerball r)); [|done].
  destruct (to_Int64 _ (Raw.PowerPlay r)); [|done].
  cbn [bind]. by intros [= <-].
Qed.



(** C10. No row of the long table built from the Transformer's wide
    table has a null BallNumber. *)
Theorem long_BallNumber_never_null (df : list Raw.row) (wide : list Wide.row) :
  build_wide' df = Ok wide →
  ∃ long, build_long wide = Ok long ∧
          Forall (λ l, is_Some (Long.BallNumber l)) long.
Proof.
  intros Hwide.
  destruct (build_long_rows_expected wide) as (long & Hlong & Hall).
  exists long. split; [done|]. apply Forall_forall. intros l Hl.
  apply Hall in Hl as (w & Hw & Hl).
  destruct (elem_of_build_wide df wide w Hwide Hw)
    as (r & d & t & _ & _ & _ & Hc & ->).
  apply complete_wide_of in Hc as (? & ? & ? & ? & ? & ?).
  unfold expected_long_rows in Hl.
  repeat (apply elem_of_cons in Hl as [->|Hl]; [done|]).
  by apply elem_of_nil in Hl.
Qed.

Hypothesis sort_values_sorted : ∀ l, Sorted date_le (sort_values l).

(** C1. Two input rows that survive filtering with the same (Date,
    Num1..Num5, Powerball, PowerPlay) tuple leave exactly one row with
    that key in the wide table; it is the first row with that key in
    the table sorted ascending by Date, to which deduplication is
    applied. *)
Theorem dedupe_one_row_per_key (df : list Raw.row) (wide : list Wide.row)
  (r1 r2 : Raw.row) (d1 d2 : date) (t1 t2 : Typed.row) :
  build_wide' df = Ok wide →
  r1 ∈ df → to_date' r1 = Some d1 → clean_row' (r1, d1) = Ok t1 →
  r2 ∈ df → to_date' r2 = Some d2 → clean_row' (r2, d2) = Ok t2 →
  complete t1 →
  key_of (wide_of t1) = key_of (wide_of t2) →
  ∃ prep,
    prepare' df = Ok prep ∧
    sort_values prep ≡ₚ prep ∧ Sorted date_le (sort_values prep) ∧
    wide = dedupe_by_draw (sort_values prep) ∧
    filter (λ w, key_of w = key_of (wide_of t1)) wide = [wide_of t1] ∧
    head (filter (λ w, key_of w = key_of (wide_of t1)) (sort_values prep))
      = Some (wide_of t1) ∧
    wide_of t2 = wide_of t1 ∧
    NoDup (key_of <$> wide) ∧ Sorted date_le wide.
Proof.
  intros Hwide Hin1 Hd1 Hrow1 Hin2 Hd2 Hrow2 Hc Hk.
  destruct (build_wide_keeps df wide r1 d1 t1 Hwide Hin1 Hd1 Hrow1 Hc)
    as (prep & Hprep & -> & _ & Hhead & Hfilter).
  exists prep. split; [done|]. split; [done|]. split; [done|].
  split; [done|]. split; [done|]. split; [done|].
  split; [symmetry; by apply wide_of_key_inj|].
  split; [apply drop_duplicates_keys_NoDup|].
  apply StronglySorted_Sorted.
  eapply StronglySorted_sublist; [apply drop_duplicates_sublist|].
  apply Sorted_StronglySorted; [apply _|]. apply sort_values_sorted.
Qed.

(** C9. In the table handed to deduplication, two rows that agree on
    Date, Num1..Num5 and Powerball and both have a null PowerPlay have
    the same key, and the wide table keeps a single row for that key:
    the first one. *)
Theorem null_PowerPlay_rows_are_duplicates (df : list Raw.row)
  (wide : list Wide.row) :
  build_wide' df = Ok wide →
  ∃ sorted,
    (∃ prep, prepare' df = Ok prep ∧ sorted = sort_values prep) ∧
    wide = dedupe_by_draw sorted ∧
    ∀ (i j : nat) (w1 w2 : Wide.row),
      (i < j)%nat → sorted !! i = Some w1 → sorted !! j = Some w2 →
      Wide.Date w1 = Wide.Date w2 →
      Wide.Num1 w1 = Wide.Num1 w2 → Wide.Num2 w1 = Wide.Num2 w2 →
      Wide.Num3 w1 = Wide.Num3 w2 → Wide.Num4 w1 = Wide.Num4 w2 →
      Wide.Num5 w1 = Wide.Num5 w2 → Wide.Powerball w1 = Wide.Powerball w2 →
      Wide.PowerPlay w1 = None → Wide.PowerPlay w2 = None →
      key_of w1 = key_of w2 ∧
      ∃ first,
        head (filter (λ w, key_of w = key_of w1) sorted) = Some first ∧
        filter (λ w, key_of w = key_of w1) wide = [first] ∧
        filter (λ w, key_of w = key_of w2) wide = [first].
Proof.
  intros (prep & Hprep & ->)%build_wide_Ok.
  exists (sort_values prep). split; [by exists prep|]. split; [done|].
  intros i j w1 w2 Hij Hi Hj HD H1 H2 H3 H4 H5 Hpb Hp1 Hp2.
  assert (key_of w1 = key_of w2) as Hk.
  { unfold key_of. by rewrite HD, H1, H2, H3, H4, H5, Hpb, Hp1, Hp2. }
  split; [done|]. rewrite <- Hk.
  apply list_elem_of_lookup_2 in Hi.
  destruct (drop_duplicates_elem_of key_of _ _ Hi) as (y & _ & _ & Hhead).
  exists y. split; [done|].
  assert (filter (λ w, key_of w = key_of w1)
            (dedupe_by_draw (sort_values prep)) = [y]) as Hf; [|done].
  unfold dedupe_by_draw. rewrite drop_duplicates_filter.
  destruct (filter _ (sort_values prep)) as [|x xs]; [done|].
  simpl in Hhead. injection Hhead as ->. by rewrite firstn_cons, take_0.
Qed.
End wide.

(** ** The Transformer on sample rows *)

Lemma sort_by_date_perm (l : list Wide.row) : sort_by_date l ≡ₚ l.
Proof. apply merge_sort_Permutation. Qed.

Lemma sort_by_date_sorted (l : list Wide.row) : Sorted date_le (sort_by_date l).
Proof. apply (Sorted_merge_sort date_le). Qed.

(** The spec's example: the sample line gives the wide row
    [2020-01-05,3,14,22,35,41,9,2,2020,2020-01]. *)
Example sample_wide :
  build_wide parse_decimal sort_by_date [sample_row] = Ok [sample_wide_row].
Proof. reflexivity. Qed.

(** The spec's example: a row with Month 13 gives no wide row, hence no
    long row. *)
Example month13_dropped :
  build_wide parse_decimal sort_by_date [month13_row] = Ok [] ∧
  build_long [] = Ok [].
Proof. split; reflexivity. Qed.

(** A number with no integer value in a dated row makes the cast raise,
    whatever the text parser and the sort are. *)
Lemma fractional_number_raises parse_number sort_values (l : list Raw.row) :
  build_wide parse_number sort_values (fractional_row :: l)
  = Raise (TypeError cast_msg).
Proof. reflexivity. Qed.



Lemma long_BallNumber_never_null_witness :
  ∃ long, build_long [sample_wide_row] = Ok long ∧
          Forall (λ l, is_Some (Long.BallNumber l)) long.
Proof.
  apply (long_BallNumber_never_null parse_decimal sort_by_date
           sort_by_date_perm [sample_row]).
  reflexivity.
Defined.

Lemma dedupe_one_row_per_key_witness :
  ∃ prep,
    prepare parse_decimal [sample_row; sample_row] = Ok prep ∧
    sort_by_date prep ≡ₚ prep ∧ Sorted date_le (sort_by_date prep) ∧
    [sample_wide_row] = dedupe_by_draw (sort_by_date prep) ∧
    filter (λ w, key_of w = key_of (wide_of sample_typed_row)) [sample_wide_row]
      = [wide_of sample_typed_row] ∧
    head (filter (λ w, key_of w = key_of (wide_of sample_typed_row))
            (sort_by_date prep)) = Some (wide_of sample_typed_row) ∧
    wide_of sample_typed_row = wide_of sample_typed_row ∧
    NoDup (key_of <$> [sample_wide_row]) ∧ Sorted date_le [sample_wide_row].
Proof.
  apply (dedupe_one_row_per_key parse_decimal sort_by_date sort_by_date_perm
           sort_by_date_sorted [sample_row; sample_row] [sample_wide_row]
           sample_row sample_row (mkDate 2020 1 5) (mkDate 2020 1 5)
           sample_typed_row sample_typed_row).
  - reflexivity.
  - apply list_elem_of_here.
  - reflexivity.
  - reflexivity.
  - apply list_elem_of_further, list_elem_of_here.
  - reflexivity.
  - reflexivity.
  - by repeat split.
  - reflexivity.
Defined.

Lemma null_PowerPlay_rows_are_duplicates_witness :
  ∃ sorted,
    (∃ prep, prepare parse_decimal [no_PowerPlay_row; no_PowerPlay_row] = Ok prep
             ∧ sorted = sort_by_date prep) ∧
    [wide_of no_PowerPlay_typed_row] = dedupe_by_draw sorted ∧
    ∀ (i j : nat) (w1 w2 : Wide.row),
      (i < j)%nat → sorted !! i = Some w1 → sorted !! j = Some w2 →
      Wide.Date w1 = Wide.Date w2 →
      Wide.Num1 w1 = Wide.Num1 w2 → Wide.Num2 w1 = Wide.Num2 w2 →
      Wide.Num3 w1 = Wide.Num3 w2 → Wide.Num4 w1 = Wide.Num4 w2 →
      Wide.Num5 w1 = Wide.Num5 w2 → Wide.Powerball w1 = Wide.Powerball w2 →
      Wide.PowerPlay w1 = None → Wide.PowerPlay w2 = None →
      key_of w1 = key_of w2 ∧
      ∃ first,
        head (filter (λ w, key_of w = key_of w1) sorted) = Some first ∧
        filter (λ w, key_of w = key_of w1) [wide_of no_PowerPlay_typed_row]
          = [first] ∧
        filter (λ w, key_of w = key_of w2) [wide_of no_PowerPlay_typed_row]
          = [first].
Proof.
  apply (null_PowerPlay_rows_are_duplicates parse_decimal sort_by_date
           [no_PowerPlay_row; no_PowerPlay_row]).
  reflexivity.
Defined.

(** ** The data dictionary *)

(** Closed decidable facts are settled by evaluation. *)
Ltac by_evaluation := apply (bool_decide_unpack _); vm_compute; exact I.

Lemma main_Ok parse_number sort_values (df : Frame nat cell) out :
  main parse_number sort_values df = Ok out →
  ∃ raw, read_powerball_csv df = Ok raw ∧
         build_wide parse_number sort_values (Raw.records raw) = Ok (out_wide out) ∧
         build_long (out_wide out) = Ok (out_long out) ∧
         out_dict out = data_dict.
Proof.
  unfold main. intros (raw & Hraw & H)%bind_Ok.
  apply bind_Ok in H as (wide & Hwide & H).
  apply bind_Ok in H as (long & Hlong & [= <-]).
  by exists raw.
Qed.

(** C8, as the code has it.  The dictionary does not depend on the input,
    its header is column, description, and it has one row for each column
    of the wide and long outputs (thirteen names); the raw-record fields
    Game, Month and Day have no row. *)
Theorem data_dictionary_static parse_number sort_values
  (df : Frame nat cell) (out : outputs) :
  main parse_number sort_values df = Ok out →
  out_dict out = data_dict ∧
  columns (out_dict out) = ["column"; "description"] ∧
  dictionary_columns (out_dict out) =
    Wide.header ++ ["BallType"; "BallNumber"; "Position"] ∧
  NoDup (dictionary_columns (out_dict out)) ∧
  (∀ c, c ∈ dictionary_columns (out_dict out)
        ↔ c ∈ Wide.header ∨ c ∈ Long.header) ∧
  ("Game" ∉ dictionary_columns (out_dict out)) ∧
  ("Month" ∉ dictionary_columns (out_dict out)) ∧
  ("Day" ∉ dictionary_columns (out_dict out)).
Proof.
  intros (raw & _ & _ & _ & ->)%main_Ok.
  split; [done|]. split; [done|]. split; [done|].
  split; [by_evaluation|].
  split; [|repeat split; by_evaluation].
  intros c. rewrite <- elem_of_app.
  assert (Forall (λ c, c ∈ Wide.header ++ Long.header)
            (dictionary_columns data_dict)) as H1
    by by_evaluation.
  assert (Forall (λ c, c ∈ dictionary_columns data_dict)
            (Wide.header ++ Long.header)) as H2
    by by_evaluation.
  rewrite Forall_forall in H1, H2. split; auto.
Qed.

Lemma data_dictionary_static_witness :
  dictionary_columns data_dict =
    Wide.header ++ ["BallType"; "BallNumber"; "Position"].
Proof.
  refine (proj1 (proj2 (proj2 (data_dictionary_static parse_decimal sort_by_date
            sample_frame
            (mkOutputs [sample_wide_row] (expected_long_rows sample_wide_row)
               data_dict) _)))).
  reflexivity.
Defined.

(** The claim as stated (a row for every name of section 3, Game, Month
    and Day included) fails on the dictionary written for the sample
    file. *)
Lemma data_dictionary_lacks_raw_fields :
  ∃ out, main parse_decimal sort_by_date sample_frame = Ok out ∧
         ¬ (∀ c, c ∈ section3_columns → c ∈ dictionary_columns (out_dict out)).
Proof.
  eexists. split; [reflexivity|]. simpl. intros H.
  assert ("Game" ∈ section3_columns) as Hg by by_evaluation.
  apply H in Hg. revert Hg. by_evaluation.
Qed.

(** ** Loader *)

Lemma getitem_columns_Some `{EqDecision L} {C} (d : C) (cols : list L)
  (df : Frame L C) :
  cols ⊆ columns df →
  getitem_columns d cols df =
    Some (mkFrame cols
            ((λ r, (λ c, default d (i ← index_of c (columns df); r !! i)) <$> cols)
               <$> rows df)).
Proof.
  intros Hsub. unfold getitem_columns.
  destruct (mapM_index_of_is_Some cols (columns df) Hsub) as [idxs Hidxs].
  rewrite Hidxs. simpl. do 2 f_equal. apply list_fmap_ext. intros _ r _.
  apply mapM_Some in Hidxs. unfold take_cells. clear Hsub.
  induction Hidxs as [|c i cols' idxs' Hc _ IH]; [done|].
  rewrite !fmap_cons, Hc. simpl. f_equal. apply IH.
Qed.

Lemma getitem_columns_inv `{EqDecision L} {C} (d : C) (cols : list L)
  (df sel : Frame L C) :
  getitem_columns d cols df = Some sel →
  columns sel = cols ∧ nrows sel = nrows df ∧ cols ⊆ columns df.
Proof.
  unfold getitem_columns. destruct (mapM _ cols) as [idxs|] eqn:E; [|done].
  simpl. intros [= <-]. split; [done|]. split.
  - unfold nrows. simpl. by rewrite length_fmap.
  - intros c Hc. apply mapM_Some in E.
    destruct (Forall2_elem_of_left _ _ _ _ E Hc) as (i & _ & Hi).
    apply index_of_Some in Hi. by eapply list_elem_of_lookup_2.
Qed.

Section loader.
Context (parse_number : string → option numeric).
Implicit Types (db conn : gmap string Loader.table) (df : Frame string Loader.lcell).

Local Abbreviation run := (Loader.main parse_number).
Local Abbreviation coerce_types' := (Loader.coerce_types parse_number).

Lemma create_table_replace conn name sch :
  Loader.plain_name name = true →
  Loader.create_table conn name sch true
  = Ok (<[name := Loader.mkTable sch []]> conn).
Proof.
  intros Hn. unfold Loader.create_table. rewrite Hn.
  by rewrite lookup_delete_eq, insert_delete_eq.
Qed.

Lemma create_table_reuse conn name sch t :
  Loader.plain_name name = true → conn !! name = Some t →
  Loader.create_table conn name sch false = Ok conn.
Proof. intros Hn Ht. unfold Loader.create_table. by rewrite Hn, Ht. Qed.

Lemma create_table_fresh conn name sch :
  Loader.plain_name name = true → conn !! name = None →
  Loader.create_table conn name sch false
  = Ok (<[name := Loader.mkTable sch []]> conn).
Proof. intros Hn Ht. unfold Loader.create_table. by rewrite Hn, Ht. Qed.

Lemma create_table_Ok conn name sch replace conn' :
  Loader.create_table conn name sch replace = Ok conn' →
  Loader.plain_name name = true.
Proof. unfold Loader.create_table. by destruct (Loader.plain_name name). Qed.

Lemma row_count_insert conn name sch rws :
  Loader.row_count (<[name := Loader.mkTable sch rws]> conn) name = length rws.
Proof. unfold Loader.row_count. by rewrite lookup_insert_eq. Qed.

Lemma insert_rows_Ok conn name df cols conn' :
  Loader.insert_rows conn name df cols = Ok conn' →
  ∃ t sel,
    conn !! name = Some t ∧ getitem_columns Loader.LNaN cols df = Some sel ∧
    cols ⊆ (Loader.t_schema t).*1 ∧
    conn' = <[name := Loader.mkTable (Loader.t_schema t)
               (Loader.t_rows t ++
                (Loader.stored_row (Loader.t_schema t) cols
                   <$> ((λ r, Loader.to_sql <$> r) <$> rows sel)))]> conn.
Proof.
  unfold Loader.insert_rows.
  destruct (getitem_columns _ cols df) as [sel|]; [|done].
  destruct (Loader.plain_name name); [|done].
  destruct (conn !! name) as [t|]; [|done].
  case_decide; [|done]. intros [= <-]. by exists t, sel.
Qed.

Lemma insert_rows_into conn name df cols t sel :
  Loader.plain_name name = true →
  conn !! name = Some t → getitem_columns Loader.LNaN cols df = Some sel →
  cols ⊆ (Loader.t_schema t).*1 →
  Loader.insert_rows conn name df cols
  = Ok (<[name := Loader.mkTable (Loader.t_schema t)
            (Loader.t_rows t ++
             (Loader.stored_row (Loader.t_schema t) cols
                <$> ((λ r, Loader.to_sql <$> r) <$> rows sel)))]> conn).
Proof.
  intros Hn Ht Hsel Hsub. unfold Loader.insert_rows.
  rewrite Hsel, Hn, Ht. by rewrite decide_True.
Qed.

Lemma coerce_column_nrows i typ df df' :
  Loader.coerce_column parse_number i typ df = Ok df' →
  columns df' = columns df ∧ nrows df' = nrows df.
Proof.
  unfold Loader.coerce_column. intros (rows' & Hrows & [= <-])%bind_Ok.
  split; [done|]. apply traverse_Ok_Forall2, Forall2_length in Hrows.
  by unfold nrows.
Qed.

Lemma coerce_types_nrows df sch df' :
  coerce_types' df sch = Ok df' →
  columns df' = columns df ∧ nrows df' = nrows df.
Proof.
  unfold Loader.coerce_types. revert df.
  induction sch as [|[col typ] sch IH]; intros df; simpl.
  { by intros [= <-]. }
  destruct (index_of col (columns df)) as [i|]; [|done].
  intros (df1 & H1 & H2)%bind_Ok.
  apply coerce_column_nrows in H1 as [Hc1 Hn1].
  apply IH in H2 as [Hc2 Hn2]. split; congruence.
Qed.

(** What a successful run went through. *)
Lemma load_Ok (a : Loader.args) db db' n :
  run a db = (db', Ok n) →
  ∃ df sch cols trimmed coerced db1,
    Loader.a_csv a = Some df ∧
    Loader.infer_schema (Loader.a_schema a) = Ok (sch, cols) ∧
    missing_columns cols df = [] ∧
    getitem_columns Loader.LNaN cols df = Some trimmed ∧
    coerce_types' trimmed sch = Ok coerced ∧
    Loader.create_table db (Loader.a_table a) sch (Loader.a_replace a) = Ok db1 ∧
    Loader.insert_rows db1 (Loader.a_table a) coerced cols = Ok db' ∧
    n = nrows df.
Proof.
  unfold Loader.main, Loader.load_frame.
  destruct (Loader.a_csv a) as [df|]; [|done].
  destruct (Loader.infer_schema _) as [[sch cols]|]; [|done].
  case_decide as Hm; [done|].
  destruct (getitem_columns _ cols df) as [trimmed|] eqn:Ht; [|done].
  destruct (Loader.coerce_types _ trimmed sch) as [coerced|] eqn:Hc; [|done].
  destruct (Loader.create_table _ _ _ _) as [db1|] eqn:Hdb1; [|done].
  destruct (Loader.insert_rows _ _ _ _) as [db2|] eqn:Hdb2; [|done].
  intros [= <- <-]. exists df, sch, cols, trimmed, coerced, db1.
  repeat split; try done.
  apply coerce_types_nrows in Hc as [_ ->].
  by apply getitem_columns_inv in Ht as (_ & -> & _).
Qed.

(** A run is decided by the file and the arguments up to the point where
    the store is opened. *)
Lemma load_run (a : Loader.args) db df sch cols trimmed coerced :
  Loader.a_csv a = Some df →
  Loader.infer_schema (Loader.a_schema a) = Ok (sch, cols) →
  missing_columns cols df = [] →
  getitem_columns Loader.LNaN cols df = Some trimmed →
  coerce_types' trimmed sch = Ok coerced →
  run a db =
  match Loader.create_table db (Loader.a_table a) sch (Loader.a_replace a) with
  | Raise e => (db, Raise e)
  | Ok db1 =>
      match Loader.insert_rows db1 (Loader.a_table a) coerced cols with
      | Raise e => (db1, Raise e)
      | Ok db2 => (db2, Ok (nrows coerced))
      end
  end.
Proof.
  intros Hcsv Hsch Hm Ht Hc. unfold Loader.main, Loader.load_frame.
  rewrite Hcsv, Hsch, Hm. rewrite decide_False by (by intros ?).
  by rewrite Ht, Hc.
Qed.

(** C6. When an expected column of the declared schema is absent from
    the file, the run ends with the fatal error that lists the missing
    columns and the store is left as it was; when none is absent, the
    frame is first cut down to exactly the expected columns, in the
    expected order, and only that frame is coerced and inserted. *)
Theorem loader_checks_columns (a : Loader.args) db df sch cols :
  Loader.a_csv a = Some df →
  Loader.infer_schema (Loader.a_schema a) = Ok (sch, cols) →
  (∀ c, c ∈ cols → c ∉ columns df →
     run a db =
       (db, Raise (SystemExit ("CSV missing expected columns: " +:+
                               Loader.repr_list (missing_columns cols df)))) ∧
     c ∈ missing_columns cols df ∧
     (∀ c', c' ∈ missing_columns cols df ↔ c' ∈ cols ∧ c' ∉ columns df)) ∧
  (cols ⊆ columns df →
     ∃ trimmed,
       getitem_columns Loader.LNaN cols df = Some trimmed ∧
       columns trimmed = cols ∧
       rows trimmed =
         (λ r, (λ c, default Loader.LNaN (i ← index_of c (columns df); r !! i))
                 <$> cols) <$> rows df ∧
       run a db = Loader.load_frame parse_number a sch cols trimmed db).
Proof.
  intros Hcsv Hsch. split.
  - intros c Hc Hn.
    assert (c ∈ missing_columns cols df) as Hmiss
      by (by apply missing_columns_spec).
    split; [|split; [done | apply missing_columns_spec]].
    unfold Loader.main. rewrite Hcsv, Hsch.
    rewrite decide_True; [done|]. intros Hnil. rewrite Hnil in Hmiss.
    by apply elem_of_nil in Hmiss.
  - intros Hsub. eexists. split; [by apply getitem_columns_Some|].
    split; [done|]. split; [done|].
    unfold Loader.main. rewrite Hcsv, Hsch.
    rewrite decide_False
      by (intros Hne; apply Hne; by apply missing_columns_nil).
    by rewrite getitem_columns_Some.
Qed.

Lemma create_table_lookup conn name sch replace conn' :
  Loader.create_table conn name sch replace = Ok conn' →
  ∃ t, conn' !! name = Some t ∧
       length (Loader.t_rows t)
       = (if replace then 0 else Loader.row_count conn name)%nat ∧
       (replace = true →
        t = Loader.mkTable sch [] ∧ conn' = <[name := t]> conn).
Proof.
  intros Hc. pose proof (create_table_Ok _ _ _ _ _ Hc) as Hn.
  destruct replace.
  - rewrite create_table_replace in Hc by done. injection Hc as <-.
    eexists. split; [apply lookup_insert_eq|]. done.
  - destruct (conn !! name) as [t|] eqn:Ht.
    + rewrite (create_table_reuse _ _ _ t) in Hc by done. injection Hc as <-.
      exists t. split; [done|]. split; [|done].
      unfold Loader.row_count. by rewrite Ht.
    + rewrite create_table_fresh in Hc by done. injection Hc as <-.
      eexists. split; [apply lookup_insert_eq|]. split; [|done].
      unfold Loader.row_count. by rewrite Ht.
Qed.

(** C5. A load that succeeds reports the number of rows of the file.
    Loading the same file a second time succeeds as well; with the
    replace flag the table is dropped and recreated, so the table again
    holds exactly the rows of one load (the store is the same as after
    the first load); without it the table is reused and the rows are
    appended, so the table holds its earlier rows plus twice the rows of
    the file: double the count of one load when it started empty or
    absent. *)
Theorem loader_replace_and_append (a : Loader.args) db db1 (n : nat) :
  run a db = (db1, Ok n) →
  (∃ df, Loader.a_csv a = Some df ∧ n = nrows df) ∧
  Loader.row_count db1 (Loader.a_table a)
  = (if Loader.a_replace a then n
     else Loader.row_count db (Loader.a_table a) + n)%nat ∧
  (∃ db2,
     run a db1 = (db2, Ok n) ∧
     Loader.row_count db2 (Loader.a_table a)
     = (if Loader.a_replace a then n
        else Loader.row_count db (Loader.a_table a) + 2 * n)%nat ∧
     (Loader.a_replace a = true → db2 = db1) ∧
     (Loader.a_replace a = false →
      Loader.row_count db (Loader.a_table a) = 0%nat →
      Loader.row_count db2 (Loader.a_table a)
      = (2 * Loader.row_count db1 (Loader.a_table a))%nat)) ∧
  (∀ conn sch',
     Loader.create_table conn (Loader.a_table a) sch' true
     = Ok (<[Loader.a_table a := Loader.mkTable sch' []]> conn)) ∧
  (∀ conn sch' t,
     conn !! Loader.a_table a = Some t →
     Loader.create_table conn (Loader.a_table a) sch' false = Ok conn).
Proof.
  intros Hload.
  destruct (load_Ok _ _ _ _ Hload)
    as (df & sch & cols & trimmed & coerced & db0 &
        Hcsv & Hsch & Hmiss & Htrim & Hco & Hcreate & Hins & Hn).
  pose proof (create_table_Ok _ _ _ _ _ Hcreate) as Hname.
  assert (nrows coerced = n) as Hrows.
  { apply coerce_types_nrows in Hco as [_ ->].
    apply getitem_columns_inv in Htrim as (_ & -> & _). done. }
  destruct (create_table_lookup _ _ _ _ _ Hcreate) as (t & Ht & Hlen & Hrep).
  destruct (insert_rows_Ok _ _ _ _ _ Hins) as (t' & sel & Ht' & Hsel & Hsub & Hdb1).
  rewrite Ht in Ht'. injection Ht' as <-.
  set (new := Loader.stored_row (Loader.t_schema t) cols
                <$> ((λ r, Loader.to_sql <$> r) <$> rows sel)) in *.
  assert (length new = n) as Hnew.
  { unfold new. rewrite !length_fmap.
    apply getitem_columns_inv in Hsel as (_ & Hsel & _).
    unfold nrows in Hsel, Hrows. congruence. }
  assert (Loader.row_count db1 (Loader.a_table a)
          = (length (Loader.t_rows t) + n)%nat) as Hcount1.
  { rewrite Hdb1, row_count_insert, length_app. lia. }
  split; [by exists df|].
  split; [rewrite Hcount1, Hlen; by destruct (Loader.a_replace a)|].
  split; [|split].
  - rewrite (load_run a db1 df sch cols trimmed coerced) by done.
    destruct (Loader.a_replace a) eqn:Hreplace.
    + destruct (Hrep eq_refl) as [Htbl Hdb0].
      rewrite create_table_replace by done.
      rewrite (insert_rows_into _ _ _ _ (Loader.mkTable sch []) sel);
        [|done|apply lookup_insert_eq|done|by rewrite Htbl in Hsub].
      rewrite Hrows.
      match goal with
      | |- ∃ db2, (?X, _) = _ ∧ _ => assert (X = db1) as Hsame
      end.
      { assert (db1 = <[Loader.a_table a :=
                   Loader.mkTable sch
                     (Loader.stored_row sch cols
                        <$> ((λ r, Loader.to_sql <$> r) <$> rows sel))]> db)
          as Hdb1'.
        { rewrite Hdb1, Hdb0, insert_insert_eq. unfold new. by rewrite Htbl. }
        simpl. rewrite insert_insert_eq, Hdb1'. by rewrite insert_insert_eq. }
      rewrite Hsame. exists db1. split; [done|]. split; [|done].
      rewrite Hcount1, Hlen. done.
    + assert (db1 !! Loader.a_table a
              = Some (Loader.mkTable (Loader.t_schema t)
                        (Loader.t_rows t ++ new))) as Hlook
        by (rewrite Hdb1; apply lookup_insert_eq).
      rewrite (create_table_reuse _ _ _ _ Hname Hlook).
      rewrite (insert_rows_into _ _ _ _ _ sel Hname Hlook Hsel Hsub).
      rewrite Hrows. eexists. split; [done|].
      simpl. fold new. rewrite row_count_insert, !length_app, Hnew.
      split; [lia|]. split; [done|]. intros _ H0. rewrite Hcount1. lia.
  - intros conn sch'. by apply create_table_replace.
  - intros conn sch' t0 Ht0. by eapply create_table_reuse.
Qed.
End loader.

(** ** The Loader on sample files *)

Lemma loader_checks_columns_witness :
  ∃ trimmed,
    getitem_columns Loader.LNaN Loader.LONG_COLS sample_long = Some trimmed ∧
    columns trimmed = Loader.LONG_COLS ∧
    rows trimmed =
      (λ r, (λ c, default Loader.LNaN
                    (i ← index_of c (columns sample_long); r !! i))
              <$> Loader.LONG_COLS) <$> rows sample_long ∧
    Loader.main parse_decimal sample_replace_args ∅ =
    Loader.load_frame parse_decimal sample_replace_args long_schema
      Loader.LONG_COLS trimmed ∅.
Proof.
  refine (proj2 (loader_checks_columns parse_decimal sample_replace_args ∅
                   sample_long long_schema Loader.LONG_COLS eq_refl eq_refl) _).
  intros c Hc. apply elem_of_app. by left.
Defined.

(** A file without BallNumber and Year: the error names both, and the
    store is untouched. *)
Example loader_missing_columns_named (db : gmap string Loader.table) :
  Loader.main parse_decimal
    (Loader.mkArgs (Some short_long) "draws" "long" true) db
  = (db, Raise (SystemExit
       "CSV missing expected columns: ['BallNumber', 'Year']")).
Proof. reflexivity. Qed.

Lemma loader_replace_and_append_witness :
  Loader.row_count (Loader.main parse_decimal sample_append_args ∅).1 "draws"
  = 1%nat ∧
  ∃ db2,
    Loader.main parse_decimal sample_append_args
      (Loader.main parse_decimal sample_append_args ∅).1 = (db2, Ok 1%nat) ∧
    Loader.row_count db2 "draws" = 2%nat.
Proof.
  destruct (loader_replace_and_append parse_decimal sample_append_args ∅
              (Loader.main parse_decimal sample_append_args ∅).1 1%nat)
    as (_ & H1 & (db2 & Hload & H2 & _) & _).
  { reflexivity. }
  split; [exact H1|]. exists db2. split; [exact Hload | exact H2].
Defined.

(** Both modes, run: one load gives one row; a second load with replace
    gives one row, without it two. *)
Example load_twice_counts :
  let once := (Loader.main parse_decimal sample_replace_args ∅).1 in
  let replaced := (Loader.main parse_decimal sample_replace_args once).1 in
  let appended := (Loader.main parse_decimal sample_append_args once).1 in
  Loader.row_count once "draws" = 1%nat ∧
  Loader.row_count replaced "draws" = 1%nat ∧
  Loader.row_count appended "draws" = 2%nat.
Proof. by vm_compute. Qed.


(** * Further properties *)

(** ** Casts and traversals *)




(** ** Dropping duplicates, continued *)

Lemma drop_duplicates_from_id {A K} `{EqDecision K} (key : A → K) seen l :
  NoDup (key <$> l) → (∀ x, x ∈ l → key x ∉ seen) →
  drop_duplicates_from key seen l = l.
Proof.
  revert seen. induction l as [|x l IH]; intros seen Hnd Hseen; [done|].
  rewrite fmap_cons in Hnd. apply NoDup_cons in Hnd as [Hx Hnd].
  cbn [drop_duplicates_from].
  rewrite decide_False by (apply Hseen; left). f_equal.
  apply IH; [done|]. intros y Hy. rewrite not_elem_of_cons. split.
  - intros Heq. apply Hx. rewrite <- Heq. by apply list_elem_of_fmap_2.
  - apply Hseen. by right.
Qed.

Lemma drop_duplicates_keys {A K} `{EqDecision K} (key : A → K) l k :
  k ∈ key <$> drop_duplicates key l ↔ k ∈ key <$> l.
Proof.
  rewrite !list_elem_of_fmap. split.
  - intros (x & -> & Hx). exists x. split; [done|].
    eapply elem_of_sublist; [exact Hx | apply drop_duplicates_sublist].
  - intros (x & -> & Hx).
    destruct (drop_duplicates_elem_of key l x Hx) as (y & Hy & Hk & _).
    by exists y.
Qed.

(** [dedupe_by_draw] keeps the rows in their order, keeps one row for
    every key, none twice, and has nothing left to do on its own result
    or on a table whose keys are already distinct. *)
Theorem dedupe_by_draw_normal_form (df : list Wide.row) :
  dedupe_by_draw df `sublist_of` df ∧
  NoDup (key_of <$> dedupe_by_draw df) ∧
  (∀ k, k ∈ key_of <$> dedupe_by_draw df ↔ k ∈ key_of <$> df) ∧
  dedupe_by_draw (dedupe_by_draw df) = dedupe_by_draw df ∧
  (NoDup (key_of <$> df) ↔ dedupe_by_draw df = df).
Proof.
  unfold dedupe_by_draw.
  split; [apply drop_duplicates_sublist|].
  split; [apply drop_duplicates_keys_NoDup|].
  split; [apply drop_duplicates_keys|].
  split.
  - apply drop_duplicates_from_id; [apply drop_duplicates_keys_NoDup|].
    intros x _. apply not_elem_of_nil.
  - split.
    + intros Hnd. apply drop_duplicates_from_id; [done|].
      intros x _. apply not_elem_of_nil.
    + intros <-. apply drop_duplicates_keys_NoDup.
Qed.

(** ** The wide table, continued *)

Section transformer_more.
Context (parse_number : string → option numeric).
Context (sort_values : list Wide.row → list Wide.row).

Local Abbreviation to_numeric' := (to_numeric parse_number).
Local Abbreviation to_date' := (to_date parse_number).
Local Abbreviation to_Int64' := (to_Int64 parse_number).
Local Abbreviation clean_row' := (clean_row parse_number).
Local Abbreviation prepare' := (prepare parse_number).
Local Abbreviation build_wide' := (build_wide parse_number sort_values).






Hypothesis sort_values_perm : ∀ l, sort_values l ≡ₚ l.


(** The wide table depends on which rows the input holds, not on their
    order or on how often each occurs: two inputs with the same rows give
    tables with the same rows, each once. *)
Theorem wide_table_of_same_rows (df df' : list Raw.row) (wide : list Wide.row) :
  (∀ r, r ∈ df ↔ r ∈ df') →
  build_wide' df = Ok wide →
  ∃ wide', build_wide' df' = Ok wide' ∧ wide ≡ₚ wide'.
Proof.
  intros Hsame Hwide.
  assert (is_ok (build_wide' df') = true) as Hok.
  { apply build_wide_is_ok. intros r d Hin%Hsame Hd.
    assert (is_ok (build_wide' df) = true) as Hok by (by rewrite Hwide).
    by apply (proj1 (build_wide_is_ok _ _ _) Hok r d). }
  destruct (build_wide' df') as [wide'|] eqn:Hwide'; [|done].
  exists wide'. split; [done|].
  assert (∀ d0 w0, build_wide' d0 = Ok w0 → NoDup w0) as Hnd.
  { intros d0 w0 (prep & _ & ->)%build_wide_Ok.
    apply (NoDup_fmap_1 key_of), drop_duplicates_keys_NoDup. }
  apply NoDup_Permutation; [by eapply Hnd | by eapply Hnd |].
  intros w. split.
  - intros Hw.
    destruct (elem_of_build_wide _ _ sort_values_perm _ _ _ Hwide Hw)
      as (r & d & t & Hin%Hsame & Hd & Hrow & Hc & ->).
    destruct (build_wide_keeps _ _ sort_values_perm _ _ r d t Hwide' Hin Hd Hrow Hc)
      as (_ & _ & _ & Hw' & _). done.
  - intros Hw.
    destruct (elem_of_build_wide _ _ sort_values_perm _ _ _ Hwide' Hw)
      as (r & d & t & Hin%Hsame & Hd & Hrow & Hc & ->).
    destruct (build_wide_keeps _ _ sort_values_perm _ _ r d t Hwide Hin Hd Hrow Hc)
      as (_ & _ & _ & Hw' & _). done.
Qed.

Hypothesis sort_values_sorted : ∀ l, Sorted date_le (sort_values l).

(** The wide table is in ascending order of Date, no two of its rows
    have the same draw key, and so no row occurs twice. *)
Theorem wide_table_sorted_distinct (df : list Raw.row) (wide : list Wide.row) :
  build_wide' df = Ok wide →
  Sorted date_le wide ∧ NoDup (key_of <$> wide) ∧ NoDup wide.
Proof.
  intros (prep & _ & ->)%build_wide_Ok.
  assert (NoDup (key_of <$> dedupe_by_draw (sort_values prep))) as Hnd
    by apply drop_duplicates_keys_NoDup.
  split; [|split; [done | by apply (NoDup_fmap_1 key_of)]].
  apply StronglySorted_Sorted.
  eapply StronglySorted_sublist; [apply drop_duplicates_sublist|].
  apply Sorted_StronglySorted; [apply _|]. apply sort_values_sorted.
Qed.
End transformer_more.

(** ** The long table, continued *)

Lemma lookup_block_here {A B} (f : A → B) (l : list A) (rest : list B) k a :
  l !! k = Some a → ((f <$> l) ++ rest) !! k = Some (f a).
Proof. intros H. apply lookup_app_l_Some. by rewrite list_lookup_fmap, H. Qed.

Lemma lookup_block_next {A B} (f : A → B) (l : list A) (rest : list B) k :
  ((f <$> l) ++ rest) !! (length l + k)%nat = rest !! k.
Proof.
  rewrite lookup_app_r by (rewrite length_fmap; lia).
  f_equal. rewrite length_fmap. lia.
Qed.

(** The long table is laid out in six blocks as long as the wide table:
    row [k] of block [j] (for j = 0..4) is the Main row of ball [j+1] of
    wide row [k], and row [k] of the last block is its Powerball row.  So
    every Main row comes before every Powerball row. *)
Theorem long_table_layout (wide : list Wide.row) :
  ∃ long,
    build_long wide = Ok long ∧
    (∀ k w, wide !! k = Some w →
       long !! k = Some (main_ball 1 Wide.Num1 w) ∧
       long !! (length wide + k)%nat = Some (main_ball 2 Wide.Num2 w) ∧
       long !! (length wide + (length wide + k))%nat
         = Some (main_ball 3 Wide.Num3 w) ∧
       long !! (length wide + (length wide + (length wide + k)))%nat
         = Some (main_ball 4 Wide.Num4 w) ∧
       long !! (length wide + (length wide + (length wide + (length wide + k))))%nat
         = Some (main_ball 5 Wide.Num5 w) ∧
       long !! (length wide + (length wide + (length wide + (length wide +
                  (length wide + k)))))%nat
         = Some (pb_row w)) ∧
    (∀ i l, long !! i = Some l →
       (i < 5 * length wide → Long.BallType l = "Main")%nat ∧
       (5 * length wide ≤ i → Long.BallType l = "Powerball")%nat).
Proof.
  eexists. split; [apply build_long_Ok|]. split.
  - intros k w Hk. rewrite !lookup_block_next.
    repeat split; try by apply lookup_block_here.
    by rewrite list_lookup_fmap, Hk.
  - intros i l. rewrite !(assoc_L (++)).
    match goal with
    | |- context [?m ++ (pb_row <$> wide)] => set (mains := m)
    end.
    assert (length mains = (5 * length wide)%nat) as Hlen.
    { unfold mains. rewrite !length_app, !length_fmap. lia. }
    assert (Forall (λ l, Long.BallType l = "Main") mains) as Hmains.
    { unfold mains. rewrite !Forall_app. repeat split; by apply Forall_fmap, Forall_true. }
    intros Hi. split; intros Hlt.
    + rewrite lookup_app_l in Hi by lia.
      by eapply (proj1 (Forall_lookup _ _) Hmains).
    + rewrite lookup_app_r in Hi by lia.
      apply list_lookup_fmap_Some in Hi as (w & -> & _). done.
Qed.

Lemma long_rows_determine_wide (w1 w2 : list Wide.row) :
  main_ball 1 Wide.Num1 <$> w1 = main_ball 1 Wide.Num1 <$> w2 →
  main_ball 2 Wide.Num2 <$> w1 = main_ball 2 Wide.Num2 <$> w2 →
  main_ball 3 Wide.Num3 <$> w1 = main_ball 3 Wide.Num3 <$> w2 →
  main_ball 4 Wide.Num4 <$> w1 = main_ball 4 Wide.Num4 <$> w2 →
  main_ball 5 Wide.Num5 <$> w1 = main_ball 5 Wide.Num5 <$> w2 →
  pb_row <$> w1 = pb_row <$> w2 →
  w1 = w2.
Proof.
  revert w2. induction w1 as [|a w1 IH]; intros [|b w2]; try done.
  rewrite !fmap_cons. intros E1 E2 E3 E4 E5 E6.
  injection E1 as X1 T1. injection E2 as X2 T2. injection E3 as X3 T3.
  injection E4 as X4 T4. injection E5 as X5 T5. injection E6 as X6 T6.
  f_equal; [|by apply IH].
  destruct a, b. unfold pb_row, main_ball in *. simpl in *. congruence.
Qed.

(** The reshape loses nothing: two wide tables with the same long table
    are the same table. *)
Theorem build_long_injective (w1 w2 : list Wide.row) :
  build_long w1 = build_long w2 → w1 = w2.
Proof.
  rewrite !build_long_Ok. intros [= Heq].
  assert (length w1 = length w2) as Hlen.
  { apply (f_equal length) in Heq. rewrite !length_app, !length_fmap in Heq. lia. }
  apply app_inj_1 in Heq as [H1 Heq]; [|by rewrite !length_fmap].
  apply app_inj_1 in Heq as [H2 Heq]; [|by rewrite !length_fmap].
  apply app_inj_1 in Heq as [H3 Heq]; [|by rewrite !length_fmap].
  apply app_inj_1 in Heq as [H4 Heq]; [|by rewrite !length_fmap].
  apply app_inj_1 in Heq as [H5 H6]; [|by rewrite !length_fmap].
  by apply long_rows_determine_wide.
Qed.

Lemma build_long_injective_witness : [sample_wide_row] = [sample_wide_row].
Proof. by apply (build_long_injective [sample_wide_row] [sample_wide_row]). Defined.

(** ** The Ingestor and the whole cleaner *)

Lemma take_cells_length {C} (d : C) idxs r : length (take_cells d idxs r) = length idxs.
Proof. unfold take_cells. by rewrite length_fmap. Qed.

Lemma records_positional_11 (r : list cell) :
  length r = 11%nat →
  Raw.of_cells EXPECTED_WITH_POWERPLAY (take_cells nan (seq 0 11) r) = positional r.
Proof.
  intros Hr. do 11 (destruct r as [|? r]; [done|]). by destruct r.
Qed.

Lemma records_positional_10 (r : list cell) :
  length r = 10%nat →
  Raw.of_cells EXPECTED_WITH_POWERPLAY (take_cells nan (seq 0 11) (r ++ [nan]))
  = positional r.
Proof.
  intros Hr. do 10 (destruct r as [|? r]; [done|]). by destruct r.
Qed.

Lemma read_powerball_csv_records (df : Frame nat cell) (out : Frame string cell) :
  Forall (λ r, length r = shape1 df) (rows df) →
  read_powerball_csv df = Ok out →
  Raw.records out = positional <$> rows df ∧
  columns out = EXPECTED_WITH_POWERPLAY ∧
  Forall (λ r, length r = 11%nat) (rows out) ∧
  nrows out = nrows df.
Proof.
  intros Hwf Hout.
  destruct (decide (shape1 df = 11%nat)) as [H11|H11].
  { rewrite read_powerball_csv_11 in Hout by done. injection Hout as <-.
    unfold Raw.records, nrows. simpl. rewrite <- list_fmap_compose, length_fmap.
    split; [|split; [done|split; [|done]]].
    - apply Forall_fmap_ext_1. eapply Forall_impl; [exact Hwf|].
      intros r Hr. simpl. apply records_positional_11. congruence.
    - apply Forall_fmap, Forall_true. by intros r; simpl. }
  destruct (decide (shape1 df = 10%nat)) as [H10|H10].
  { rewrite read_powerball_csv_10 in Hout by done. injection Hout as <-.
    unfold Raw.records, nrows. simpl.
    rewrite <- !list_fmap_compose, !length_fmap.
    split; [|split; [done|split; [|done]]].
    - apply Forall_fmap_ext_1. eapply Forall_impl; [exact Hwf|].
      intros r Hr. simpl. apply records_positional_10. congruence.
    - apply Forall_fmap, Forall_true. by intros r; simpl. }
  unfold read_powerball_csv in Hout. by rewrite !decide_False in Hout.
Qed.

(** What the Ingestor hands on, read as records, is the input read by
    position: field 0 is Game, 1 Month, 2 Day, 3 Year, 4..8 Num1..Num5,
    9 Powerball and 10 PowerPlay, which is NaN for a 10-column file.  The
    output has the eleven fixed columns, eleven cells in every row and as
    many rows as the input. *)
Theorem ingestor_fields_by_position (df : Frame nat cell) (out : Frame string cell) :
  Forall (λ r, length r = shape1 df) (rows df) →
  read_powerball_csv df = Ok out →
  Raw.records out = positional <$> rows df ∧
  columns out = EXPECTED_WITH_POWERPLAY ∧
  wf_frame out ∧
  nrows out = nrows df.
Proof.
  intros Hwf Hout.
  destruct (read_powerball_csv_records df out Hwf Hout) as (H1 & H2 & H3 & H4).
  split; [done|]. split; [done|]. split; [|done].
  unfold wf_frame. rewrite H2. split; [by_evaluation | done].
Qed.

Lemma ingestor_fields_by_position_witness :
  Raw.records (mkFrame EXPECTED_WITH_POWERPLAY (rows sample_frame))
  = positional <$> rows sample_frame.
Proof.
  refine (proj1 (ingestor_fields_by_position sample_frame _ _ _)).
  - repeat constructor.
  - reflexivity.
Defined.




(** A 10-column file has no PowerPlay: every row of the wide table and
    of the long table written for it has a null PowerPlay. *)
Theorem ten_columns_null_PowerPlay parse_number sort_values
  (df : Frame nat cell) (out : outputs) :
  (∀ l, sort_values l ≡ₚ l) →
  shape1 df = 10%nat →
  Forall (λ r, length r = 10%nat) (rows df) →
  main parse_number sort_values df = Ok out →
  Forall (λ w, Wide.PowerPlay w = None) (out_wide out) ∧
  Forall (λ l, Long.PowerPlay l = None) (out_long out).
Proof.
  intros Hperm H10 Hwf (raw & Hraw & Hwide & Hlong & _)%main_Ok.
  assert (Forall (λ w, Wide.PowerPlay w = None) (out_wide out)) as HW.
  { apply Forall_forall. intros w Hw.
    destruct (elem_of_build_wide _ _ Hperm _ _ _ Hwide Hw)
      as (r & d & t & Hin & _ & Hrow & _ & ->).
    apply clean_row_inv in Hrow as (_ & _ & _ & _ & _ & _ & _ & Hpp).
    destruct (read_powerball_csv_records df raw) as (Hrec & _); [by rewrite H10|done|].
    rewrite Hrec in Hin. apply list_elem_of_fmap in Hin as (cells & -> & Hcells).
    rewrite Forall_forall in Hwf. specialize (Hwf _ Hcells).
    assert (Raw.PowerPlay (positional cells) = nan) as Hnan.
    { unfold positional. simpl. by rewrite lookup_ge_None_2 by lia. }
    rewrite Hnan in Hpp. simpl. by injection Hpp as <-. }
  split; [done|]. apply Forall_forall. intros l Hl.
  destruct (build_long_rows_expected (out_wide out)) as (long & Hlong' & Hall).
  rewrite Hlong in Hlong'. injection Hlong' as <-.
  apply Hall in Hl as (w & Hw & Hl).
  rewrite Forall_forall in HW. specialize (HW _ Hw).
  unfold expected_long_rows in Hl.
  repeat (apply elem_of_cons in Hl as [->|Hl]; [done|]).
  by apply elem_of_nil in Hl.
Qed.

(** ** Year and YearMonth *)

Lemma year_month_table :
  Forall (λ y, Forall (λ m,
      year_month (mkDate y m 0) =
        pretty y +:+ "-" +:+ (if decide (m < 10) then "0" +:+ pretty m else pretty m)
      ∧ String.length (year_month (mkDate y m 0)) = 7%nat)
    (seqZ 1 12)) (seqZ 1677 586).
Proof. by_evaluation. Qed.

Lemma year_month_format (d : date) :
  valid_date d = true → in_bounds d = true →
  year_month d =
    pretty (year d) +:+ "-" +:+
    (if decide (month d < 10) then "0" +:+ pretty (month d) else pretty (month d))
  ∧ String.length (year_month d) = 7%nat.
Proof.
  intros Hv Hb.
  assert (1 ≤ month d ≤ 12) as Hm.
  { unfold valid_date in Hv. rewrite !andb_true_iff, !Z.leb_le in Hv. lia. }
  assert (1677 ≤ year d ≤ 2262) as Hy.
  { unfold in_bounds in Hb. apply andb_true_iff in Hb as [H1 H2].
    apply date_leb_le in H1, H2. simpl in H1, H2. lia. }
  pose proof year_month_table as H.
  rewrite Forall_forall in H. specialize (H (year d)).
  rewrite elem_of_seqZ in H. specialize (H ltac:(lia)).
  rewrite Forall_forall in H. specialize (H (month d)).
  rewrite elem_of_seqZ in H. specialize (H ltac:(lia)).
  by destruct d.
Qed.

(** Every row of the wide table has the year of its Date as Year, and as
    YearMonth the seven characters YYYY-MM: the four digits of the year,
    a dash, and the month on two digits. *)
Theorem wide_Year_and_YearMonth parse_number sort_values
  (df : list Raw.row) (wide : list Wide.row) (w : Wide.row) :
  (∀ l, sort_values l ≡ₚ l) →
  build_wide parse_number sort_values df = Ok wide → w ∈ wide →
  Wide.Year w = year (Wide.Date w) ∧
  Wide.YearMonth w =
    pretty (year (Wide.Date w)) +:+ "-" +:+
    (if decide (month (Wide.Date w) < 10)
     then "0" +:+ pretty (month (Wide.Date w))
     else pretty (month (Wide.Date w))) ∧
  String.length (Wide.YearMonth w) = 7%nat.
Proof.
  intros Hperm Hwide Hw.
  destruct (elem_of_build_wide _ _ Hperm _ _ _ Hwide Hw)
    as (r & d & t & _ & Hd & Hrow & _ & ->).
  apply clean_row_inv in Hrow as (Hdate & _).
  unfold to_date in Hd. apply to_datetime_Some in Hd as (_ & _ & _ & Hv & Hb).
  split; [done|]. simpl. rewrite Hdate. by apply year_month_format.
Qed.

Lemma wide_Year_and_YearMonth_witness :
  Wide.Year sample_wide_row = 2020 ∧
  Wide.YearMonth sample_wide_row = "2020-01" ∧
  String.length (Wide.YearMonth sample_wide_row) = 7%nat.
Proof.
  apply (wide_Year_and_YearMonth parse_decimal sort_by_date [sample_row]
           [sample_wide_row] sample_wide_row sort_by_date_perm).
  - reflexivity.
  - apply list_elem_of_here.
Defined.


Lemma wide_table_of_same_rows_witness :
  ∃ wide', build_wide parse_decimal sort_by_date [sample_row] = Ok wide' ∧
           [sample_wide_row] ≡ₚ wide'.
Proof.
  apply (wide_table_of_same_rows parse_decimal sort_by_date sort_by_date_perm
           [sample_row; sample_row] [sample_row] [sample_wide_row]).
  - intros r. rewrite !elem_of_cons. tauto.
  - reflexivity.
Defined.

Lemma wide_table_sorted_distinct_witness :
  Sorted date_le [sample_wide_row] ∧ NoDup (key_of <$> [sample_wide_row]) ∧
  NoDup [sample_wide_row].
Proof.
  apply (wide_table_sorted_distinct parse_decimal sort_by_date
           sort_by_date_sorted [sample_row; sample_row]).
  reflexivity.
Defined.

Lemma ten_columns_null_PowerPlay_witness :
  Forall (λ w, Wide.PowerPlay w = None) [wide_of no_PowerPlay_typed_row] ∧
  Forall (λ l, Long.PowerPlay l = None)
    (expected_long_rows (wide_of no_PowerPlay_typed_row)).
Proof.
  apply (ten_columns_null_PowerPlay parse_decimal sort_by_date sample_frame_10
           (mkOutputs [wide_of no_PowerPlay_typed_row]
              (expected_long_rows (wide_of no_PowerPlay_typed_row)) data_dict)
           sort_by_date_perm).
  - reflexivity.
  - repeat constructor.
  - reflexivity.
Defined.

(** ** The Loader, continued *)

Lemma infer_schema_Ok (name : string) (sch : Loader.schema) (cols : list string) :
  Loader.infer_schema name = Ok (sch, cols) →
  sch.*1 = cols ∧ NoDup cols ∧
  Forall (λ p, p.2 = "INTEGER" ∨ p.2 = "TEXT") sch ∧
  ((name = "long" ∧ cols = Long.header) ∨ (name = "wide" ∧ cols = Wide.header)).
Proof.
  unfold Loader.infer_schema.
  destruct (decide (name = "long")) as [->|Hl].
  { intros [= <- <-]. split; [done|]. split; [by_evaluation|].
    split; [by_evaluation | by left]. }
  destruct (decide (name = "wide")) as [->|Hw]; [|done].
  intros [= <- <-]. split; [done|]. split; [by_evaluation|].
  split; [by_evaluation | by right].
Qed.

(** Whatever schema [infer_schema] returns, its column order is the key
    order of its type map, no column is listed twice, every type is
    INTEGER or TEXT, and the columns are exactly the header that the
    cleaner writes for that kind of file; any name other than long and
    wide ends the run. *)
Theorem infer_schema_consistent (name : string) :
  match Loader.infer_schema name with
  | Ok (sch, cols) =>
      sch.*1 = cols ∧ NoDup cols ∧
      Forall (λ p, p.2 = "INTEGER" ∨ p.2 = "TEXT") sch ∧
      ((name = "long" ∧ cols = Long.header) ∨
       (name = "wide" ∧ cols = Wide.header))
  | Raise e =>
      name ≠ "long" ∧ name ≠ "wide" ∧
      e = SystemExit ("Unknown schema: " +:+ name)
  end.
Proof.
  destruct (Loader.infer_schema name) as [[sch cols]|e] eqn:E.
  - by apply infer_schema_Ok.
  - unfold Loader.infer_schema in E.
    destruct (decide (name = "long")); [done|].
    destruct (decide (name = "wide")); [done|].
    by injection E as <-.
Qed.

Section loader_more.
Context (parse_number : string → option numeric).
Implicit Types (db conn : gmap string Loader.table) (df : Frame string Loader.lcell).

Local Abbreviation run := (Loader.main parse_number).
Local Abbreviation coerce_cell' := (Loader.coerce_cell parse_number).
Local Abbreviation coerce_types' := (Loader.coerce_types parse_number).


Lemma coerce_cell_INTEGER c y :
  coerce_cell' "INTEGER" c = Ok y → ∃ v, y = Loader.LInt v.
Proof.
  unfold Loader.coerce_cell. rewrite decide_True by done.
  intros (v & _ & [= <-])%bind_Ok. by exists v.
Qed.

Lemma coerce_column_spec i typ df df1 :
  Loader.coerce_column parse_number i typ df = Ok df1 →
  columns df1 = columns df ∧
  Forall2 (λ r r1,
      length r1 = length r ∧
      (∀ j, j ≠ i → r1 !! j = r !! j) ∧
      (∀ x, r !! i = Some x → ∃ y, coerce_cell' typ x = Ok y ∧ r1 !! i = Some y))
    (rows df) (rows df1).
Proof.
  unfold Loader.coerce_column. intros (rows' & Hrows & [= <-])%bind_Ok.
  split; [done|]. simpl. apply traverse_Ok_Forall2 in Hrows.
  eapply Forall2_impl; [exact Hrows|]. intros r r1 Hr. simpl in Hr.
  destruct (r !! i) as [c|] eqn:Hc.
  - apply bind_Ok in Hr as (c' & Hc' & [= <-]).
    split; [by rewrite length_insert|]. split.
    + intros j Hj. by rewrite list_lookup_insert_ne.
    + intros x [= <-]. exists c'. split; [done|].
      apply list_lookup_insert_eq. by eapply lookup_lt_Some.
  - injection Hr as <-. by repeat split.
Qed.

Lemma coerce_items_spec items df df' :
  NoDup (columns df) → NoDup items.*1 →
  Loader.coerce_items parse_number items df = Ok df' →
  columns df' = columns df ∧
  Forall2 (coerced_cells parse_number (columns df) items) (rows df) (rows df').
Proof.
  revert df. induction items as [|[col typ] items IH]; intros df Hcols Hitems.
  { intros [= <-]. split; [done|]. apply Forall_Forall2_diag, Forall_true.
    intros r. split; [done|]. intros j c _. split; [done|].
    by intros typ x ?%elem_of_nil. }
  cbn [Loader.coerce_items].
  destruct (index_of col (columns df)) as [i|] eqn:Hi; [|done].
  intros (df1 & H1 & H2)%bind_Ok.
  apply coerce_column_spec in H1 as [Hc1 Hr1].
  rewrite fmap_cons in Hitems. apply NoDup_cons in Hitems as [Hcol Hitems].
  apply IH in H2 as [Hc2 Hr2]; [|by rewrite Hc1|done].
  split; [congruence|]. rewrite Hc1 in Hr2.
  apply index_of_Some in Hi.
  eapply Forall2_trans; [|exact Hr1|exact Hr2].
  intros r r1 r' (Hlen1 & Hother & Hhere) (Hlen2 & Hcells).
  split; [congruence|]. intros j c Hj.
  destruct (Hcells j c Hj) as [Hkeep Hco]. split.
  - rewrite fmap_cons, not_elem_of_cons. simpl. intros [Hne Hnin].
    rewrite Hkeep by done. apply Hother. intros Heq.
    rewrite Heq, Hi in Hj. injection Hj as Hj. by destruct Hne.
  - intros typ' x [[= -> ->]|Hin]%elem_of_cons Hx.
    + assert (j = i) as -> by (eapply (NoDup_lookup (columns df)); eauto).
      destruct (Hhere x Hx) as (y & Hy & Hy1). exists y. split; [done|].
      by rewrite Hkeep.
    + assert (c ≠ col) as Hne.
      { intros ->. apply Hcol. apply list_elem_of_fmap. by exists (col, typ'). }
      apply (Hco typ' x Hin). rewrite Hother; [done|]. intros Heq.
      rewrite Heq, Hi in Hj. injection Hj as Hj. by destruct Hne.
Qed.

Lemma coerce_types_spec df (sch : Loader.schema) df' :
  NoDup (columns df) → NoDup sch.*1 →
  coerce_types' df sch = Ok df' →
  columns df' = columns df ∧ nrows df' = nrows df ∧
  Forall2 (coerced_cells parse_number (columns df) sch) (rows df) (rows df') ∧
  (∀ r' j c y, r' ∈ rows df' → columns df !! j = Some c →
     (c, "INTEGER") ∈ sch → r' !! j = Some y → ∃ v, y = Loader.LInt v).
Proof.
  intros Hcols Hsch Hco. unfold Loader.coerce_types in Hco.
  destruct (coerce_items_spec _ _ _ Hcols Hsch Hco) as [Hc Hr].
  split; [done|]. split; [by apply Forall2_length in Hr|]. split; [done|].
  intros r' j c y Hr' Hj Hint Hy.
  destruct (Forall2_elem_of_right _ _ _ _ Hr Hr') as (r & _ & Hlen & Hcells).
  destruct (Hcells j c Hj) as [_ Hco'].
  destruct (lookup_lt_is_Some_2 r j) as [x Hx].
  { rewrite <- Hlen. by eapply lookup_lt_Some. }
  destruct (Hco' "INTEGER" x Hint Hx) as (y' & Hy' & Hy'').
  rewrite Hy in Hy''. injection Hy'' as <-. by eapply coerce_cell_INTEGER.
Qed.

(** [coerce_types] works cell by cell.  On a frame with distinct column
    labels it keeps the labels and the number of rows; in every row the
    cell under a schema column becomes its coercion to the column's type
    and the cells of other columns are untouched; in particular a cell
    of an INTEGER column ends up an Int64 value, never text. *)
Theorem coerce_types_cellwise df (sch : Loader.schema) df' :
  NoDup (columns df) → NoDup sch.*1 →
  coerce_types' df sch = Ok df' →
  columns df' = columns df ∧ nrows df' = nrows df ∧
  Forall2 (coerced_cells parse_number (columns df) sch) (rows df) (rows df') ∧
  (∀ r' j c y, r' ∈ rows df' → columns df !! j = Some c →
     (c, "INTEGER") ∈ sch → r' !! j = Some y → ∃ v, y = Loader.LInt v).
Proof. apply coerce_types_spec. Qed.


End loader_more.

Lemma index_of_lookup `{EqDecision L} (cols : list L) (i : nat) (c : L) :
  NoDup cols → cols !! i = Some c → index_of c cols = Some i.
Proof.
  intros Hnd Hi. destruct (index_of c cols) as [j|] eqn:Hj.
  - apply index_of_Some in Hj. f_equal. by eapply NoDup_lookup.
  - apply index_of_None in Hj. destruct Hj. by eapply list_elem_of_lookup_2.
Qed.

(** Picking every column, in order, gives the row back. *)
Lemma reindex_id `{EqDecision L} {C} (d : C) (cols : list L) (r : list C) :
  NoDup cols → length r = length cols →
  (λ c, default d (i ← index_of c cols; r !! i)) <$> cols = r.
Proof.
  intros Hnd Hlen. apply list_eq. intros i. rewrite list_lookup_fmap.
  destruct (cols !! i) as [c|] eqn:Hc; simpl.
  - rewrite (index_of_lookup cols i c) by done. simpl.
    destruct (lookup_lt_is_Some_2 r i) as [x Hx].
    { rewrite Hlen. by eapply lookup_lt_Some. }
    by rewrite Hx.
  - symmetry. apply lookup_ge_None. rewrite Hlen. by apply lookup_ge_None.
Qed.

Section loader_store.
Context (parse_number : string → option numeric).
Implicit Types (db conn : gmap string Loader.table) (df : Frame string Loader.lcell).

Local Abbreviation run := (Loader.main parse_number).
Local Abbreviation coerce_types' := (Loader.coerce_types parse_number).








Lemma getitem_columns_all (cols : list string) df :
  NoDup cols → columns df = cols →
  Forall (λ r, length r = length cols) (rows df) →
  getitem_columns Loader.LNaN cols df = Some df.
Proof.
  intros Hnd Hcols Hrows.
  rewrite getitem_columns_Some by (by rewrite Hcols).
  destruct df as [dcols drows]. simpl in *. subst dcols. do 2 f_equal.
  rewrite <- (list_fmap_id drows) at 2. apply Forall_fmap_ext_1.
  eapply Forall_impl; [exact Hrows|]. intros r Hr. simpl. by apply reindex_id.
Qed.

Lemma stored_row_all (sch : Loader.schema) (vals : list Loader.sqlval) :
  NoDup sch.*1 → length vals = length sch →
  Loader.stored_row sch sch.*1 vals = vals.
Proof.
  intros Hnd Hlen. unfold Loader.stored_row.
  apply reindex_id; [done|]. by rewrite length_fmap.
Qed.

(** What a run has established when it reaches the store. *)
Lemma load_frame_ready (a : Loader.args) df sch cols trimmed coerced :
  Loader.infer_schema (Loader.a_schema a) = Ok (sch, cols) →
  getitem_columns Loader.LNaN cols df = Some trimmed →
  coerce_types' trimmed sch = Ok coerced →
  sch.*1 = cols ∧ NoDup cols ∧ columns coerced = cols ∧
  Forall (λ r, length r = length cols) (rows coerced) ∧
  getitem_columns Loader.LNaN cols coerced = Some coerced ∧
  (∀ r j c y, r ∈ rows coerced → sch !! j = Some (c, "INTEGER") →
     r !! j = Some y → ∃ v, y = Loader.LInt v).
Proof.
  intros Hsch Htrim Hco.
  apply infer_schema_Ok in Hsch as (Hkeys & Hnd & _).
  pose proof (getitem_columns_inv _ _ _ _ Htrim) as (Hcols & _ & Hsub).
  assert (Forall (λ r, length r = length cols) (rows trimmed)) as Hlen.
  { rewrite getitem_columns_Some in Htrim by done. injection Htrim as <-.
    simpl. apply Forall_fmap, Forall_true. intros r. simpl. by rewrite length_fmap. }
  destruct (coerce_types_spec parse_number trimmed sch coerced)
    as (Hc & _ & Hrows & Hint); [by rewrite Hcols | by rewrite Hkeys | done |].
  assert (Forall (λ r, length r = length cols) (rows coerced)) as Hlen'.
  { apply Forall_forall. intros r' Hr'.
    destruct (Forall2_elem_of_right _ _ _ _ Hrows Hr') as (r & Hr & Hl & _).
    rewrite Forall_forall in Hlen. rewrite Hl. by apply Hlen. }
  split; [done|]. split; [done|]. split; [congruence|]. split; [done|].
  split; [apply getitem_columns_all; [done | congruence | done]|].
  intros r j c y Hr Hj Hy. apply (Hint r j c y Hr); [|by eapply list_elem_of_lookup_2|done].
  rewrite Hcols, <- Hkeys, list_lookup_fmap.
  unfold Loader.schema in *. by rewrite Hj.
Qed.


(** After a successful run with the replace flag, or into a store that
    had no table of that name, the table has the declared columns and
    holds exactly the coerced rows of the trimmed file, in file order,
    each value converted for the store (a missing value to NULL); under
    an INTEGER column every stored value is NULL or an integer. *)
Theorem loader_table_content (a : Loader.args) db db1 (n : nat) :
  run a db = (db1, Ok n) →
  Loader.a_replace a = true ∨ db !! Loader.a_table a = None →
  ∃ df sch cols trimmed coerced,
    Loader.a_csv a = Some df ∧
    Loader.infer_schema (Loader.a_schema a) = Ok (sch, cols) ∧
    getitem_columns Loader.LNaN cols df = Some trimmed ∧
    coerce_types' trimmed sch = Ok coerced ∧
    db1 = <[Loader.a_table a :=
              Loader.mkTable sch
                ((λ r : list Loader.lcell, Loader.to_sql <$> r) <$> rows coerced)]> db ∧
    (∀ (row : list Loader.sqlval) (j : nat) c v,
       row ∈ (λ r : list Loader.lcell, Loader.to_sql <$> r) <$> rows coerced →
       sch !! j = Some (c, "INTEGER") → row !! j = Some v →
       v = Loader.SqlNull ∨ ∃ z, v = Loader.SqlInt z).
Proof.
  intros Hrun Hfresh.
  destruct (load_Ok _ _ _ _ _ Hrun)
    as (df & sch & cols & trimmed & coerced & db0 &
        Hcsv & Hsch & _ & Htrim & Hco & Hcreate & Hins & _).
  exists df, sch, cols, trimmed, coerced.
  destruct (load_frame_ready a df sch cols trimmed coerced Hsch Htrim Hco)
    as (Hkeys & Hnd & Hcols & Hlen & Hsel & Hint).
  pose proof (create_table_Ok _ _ _ _ _ Hcreate) as Hname.
  assert (db0 = <[Loader.a_table a := Loader.mkTable sch []]> db) as ->.
  { destruct Hfresh as [Hr|Hnone].
    - rewrite Hr, create_table_replace in Hcreate by done. by injection Hcreate.
    - destruct (Loader.a_replace a).
      + rewrite create_table_replace in Hcreate by done. by injection Hcreate.
      + rewrite create_table_fresh in Hcreate by done. by injection Hcreate. }
  rewrite (insert_rows_into _ _ _ _ (Loader.mkTable sch []) coerced Hname
             (lookup_insert_eq _ _ _) Hsel) in Hins
    by (simpl; by rewrite Hkeys).
  injection Hins as <-. simpl. rewrite insert_insert_eq.
  split; [done|]. split; [done|]. split; [done|]. split; [done|]. split.
  - do 2 f_equal. rewrite <- Hkeys.
    rewrite <- (list_fmap_id
                  ((λ r : list Loader.lcell, Loader.to_sql <$> r) <$> rows coerced)) at 2.
    apply Forall_fmap_ext_1, Forall_fmap.
    eapply Forall_impl; [exact Hlen|]. intros r Hr. simpl.
    apply stored_row_all; [by rewrite Hkeys|].
    rewrite length_fmap, Hr, <- Hkeys. by rewrite length_fmap.
  - intros row j c v (r & -> & Hr)%list_elem_of_fmap Hj Hv.
    rewrite list_lookup_fmap in Hv.
    destruct (r !! j) as [y|] eqn:Hy; [|done]. injection Hv as <-.
    destruct (Hint r j c y Hr Hj Hy) as (w & ->).
    destruct w as [z|]; simpl; [right; by exists z | by left].
Qed.
End loader_store.

Section loader_success.
Context (parse_number : string → option numeric).
Implicit Types (db conn : gmap string Loader.table) (df : Frame string Loader.lcell).

Local Abbreviation run := (Loader.main parse_number).
Local Abbreviation coerce_types' := (Loader.coerce_types parse_number).

End loader_success.

(** ** The Loader on sample files, continued *)

Lemma coerce_types_cellwise_witness :
  columns sample_long_coerced = columns sample_long_trimmed ∧
  nrows sample_long_coerced = nrows sample_long_trimmed.
Proof.
  destruct (coerce_types_cellwise parse_decimal sample_long_trimmed long_schema
              sample_long_coerced) as (H1 & H2 & _).
  - by_evaluation.
  - by_evaluation.
  - reflexivity.
  - by split.
Defined.




Lemma loader_table_content_witness :
  Loader.row_count (Loader.main parse_decimal sample_replace_args ∅).1 "draws"
  = 1%nat.
Proof.
  destruct (loader_table_content parse_decimal sample_replace_args ∅
              (Loader.main parse_decimal sample_replace_args ∅).1 1%nat)
    as (df & sch & cols & trimmed & coerced & _).
  - reflexivity.
  - by left.
  - reflexivity.
Defined.

(** ** Size of the wide table *)

Lemma length_notna_Date (out : list (Raw.row * option date)) :
  (length (notna_Date out) ≤ length out)%nat.
Proof.
  induction out as [|[r [d|]] out IH]; simpl; [lia| |];
    change (omap _ out) with (notna_Date out); lia.
Qed.

(** The wide table never has more rows than the input: rows are only
    dropped (no date, a missing number, a repeated draw), never added. *)
Theorem wide_table_no_longer_than_input parse_number sort_values
  (df : list Raw.row) (wide : list Wide.row) :
  (∀ l, sort_values l ≡ₚ l) →
  build_wide parse_number sort_values df = Ok wide →
  (length wide ≤ length df)%nat.
Proof.
  intros Hperm (prep & Hprep & ->)%build_wide_Ok.
  apply prepare_Ok in Hprep as (ts & Hts & ->).
  apply traverse_Ok_Forall2, Forall2_length in Hts.
  pose proof (sublist_length _ _ (drop_duplicates_sublist key_of
    (sort_values (wide_of <$> filter complete ts)))) as H1.
  unfold dedupe_by_draw.
  rewrite (Permutation_length (Hperm _)), length_fmap in H1.
  pose proof (length_filter complete ts) as H2.
  pose proof (length_notna_Date ((λ r, (r, to_date parse_number r)) <$> df)) as H3.
  rewrite length_fmap in H3. lia.
Qed.

Lemma wide_table_no_longer_than_input_witness :
  (length [sample_wide_row] ≤ length [sample_row; month13_row; sample_row])%nat.
Proof.
  apply (wide_table_no_longer_than_input parse_decimal sort_by_date
           [sample_row; month13_row; sample_row] [sample_wide_row]
           sort_by_date_perm).
  reflexivity.
Defined.
